(** * Zero-of-functions solver: a shallow embedding of [ZOF_CLI.py]

    The six root finders of [ZOF_Project/ZOF_CLI.py] and the command-line
    driver at the bottom of that file, embedded as executable Rocq
    functions.

    Numbers.  The source computes on Python floats; the properties below
    are about the algorithms in exact arithmetic, so a float is modelled
    as a rational [Q]: a finite Python float, without rounding, overflow
    or underflow.  Python's [==] on numbers is [Qeq], its [<] and
    [>=] are the boolean tests [Py.lt] and [Py.ge], and [/] is
    [Py.truediv], the division of two Python floats, which raises
    [ZeroDivisionError] on a zero divisor.
    [max_iter] is a Python [int], hence a [Z]; [range(max_iter)] is empty
    when it is not positive.

    Effects.  A call prints lines and then either returns a value or
    raises: [effect A] records both.  A function handle ([f], [df], [g])
    is an opaque total map [Q -> Q]: an expression that returns a finite
    Python float on every input and raises nothing itself.

    NumPy.  An expression that goes through [np] returns
    [numpy.float64] scalars, on which [/] does not raise.  The module
    [Floats] models values of both kinds, with infinities and [nan],
    for the three methods whose divisor varies; the statements about
    division by zero say which kind they are about.

    Command line.  [main] is the script after [parser.parse_args()] has
    accepted the command line: the method is one of the six choices and
    [params] holds at least one number. *)

From Stdlib Require Import ZArith QArith Qabs Qround Qfield.
From Stdlib Require Import List String Lia Lqa Morphisms Setoid.
Import ListNotations.
Open Scope Q_scope.

(** ** The fragment of the Python runtime the solver relies on *)

Module Py.

Inductive exn : Set :=
| ZeroDivisionError
| UnboundLocalError.

Inductive outcome (A : Type) : Type :=
| Returned (v : A)
| Raised (e : exn).
Arguments Returned {A} v.
Arguments Raised {A} e.

(** [x < y] and [x >= y] on numbers. *)
Definition lt (x y : Q) : bool := negb (Qle_bool y x).
Definition ge (x y : Q) : bool := Qle_bool y x.

(** [x / y] on two Python floats: true division, raising on a zero
    divisor. *)
Definition truediv (x y : Q) : outcome Q :=
  if Qeq_bool y 0 then Raised ZeroDivisionError else Returned (x / y).

(** What one pass of a [for] body does to the enclosing function: fall
    through to the next pass with an updated frame, [return], or raise. *)
Inductive ctl (S R : Type) : Type :=
| Continue (s : S)
| Return (r : R)
| Raise (e : exn).
Arguments Continue {S R} s.
Arguments Return {S R} r.
Arguments Raise {S R} e.

(** How [for i in range(...)] ends: the range is used up and control
    reaches the statement after the loop with the frame [s], or the body
    returned, or the body raised. *)
Inductive loop_end (S R : Type) : Type :=
| Exhausted (s : S)
| Broke (r : R)
| Failed (e : exn).
Arguments Exhausted {S R} s.
Arguments Broke {S R} r.
Arguments Failed {S R} e.

(** [for i in range(i, i + n): body]. *)
Fixpoint for_range {S R : Type} (body : Z -> S -> ctl S R)
         (n : nat) (i : Z) (s : S) : loop_end S R :=
  match n with
  | O => Exhausted s
  | Datatypes.S n' =>
      match body i s with
      | Continue s' => for_range body n' (i + 1)%Z s'
      | Return r => Broke r
      | Raise e => Failed e
      end
  end.

(** The number of passes of that loop that are entered (a pass that
    returns or raises is counted). *)
Fixpoint for_passes {S R : Type} (body : Z -> S -> ctl S R)
         (n : nat) (i : Z) (s : S) : nat :=
  match n with
  | O => O
  | Datatypes.S n' =>
      match body i s with
      | Continue s' => Datatypes.S (for_passes body n' (i + 1)%Z s')
      | Return _ => 1%nat
      | Raise _ => 1%nat
      end
  end.

(** The function around the loop: when the range is used up, the
    statement [after] the loop runs; a [return] or an exception in the
    body leaves the function at once. *)
Definition fall_through {S R : Type} (after : S -> outcome R)
           (e : loop_end S R) : outcome R :=
  match e with
  | Exhausted s => after s
  | Broke r => Returned r
  | Failed e => Raised e
  end.

(** [x <- truediv a b ;; k]: the rest of the body runs only when the
    division did not raise. *)
Definition bind_ctl {S R : Type} (m : outcome Q) (k : Q -> ctl S R)
  : ctl S R :=
  match m with
  | Returned q => k q
  | Raised e => Raise e
  end.

End Py.

Import Py.

Notation "x <- m ;; k" := (Py.bind_ctl m (fun x => k))
  (at level 61, m at next level, right associativity).

(** ** Data model *)

(** One entry of [iterations]: the list [[i + 1, x, fx, err]]. *)
Record iteration : Type := Iteration {
  index : Z;
  estimate : Q;
  residual : Q;
  error : Q
}.

(** The triple a solver returns; each component may be [None]. *)
Definition run_result : Type :=
  (option Q * option Q * option (list iteration))%type.

(** What a call prints. Fixed messages are kept as text; formatted
    numbers are kept as the values that are formatted. *)
Inductive line : Type :=
| Text (s : string)
| Title (s : string)
| Row (r : iteration)
| FinalRoot (x : Q)
| FinalError (e : option Q)
| Iterations (n : nat).

Record effect (A : Type) : Type := Eff {
  printed : list line;
  value : outcome A
}.
Arguments Eff {A} printed value.
Arguments printed {A} e.
Arguments value {A} e.

Definition pure {A : Type} (v : A) : effect A := Eff [] (Returned v).
Definition print (l : line) : effect unit := Eff [l] (Returned tt).
Definition of_outcome {A : Type} (o : outcome A) : effect A := Eff [] o.

Definition bind {A B : Type} (m : effect A) (k : A -> effect B)
  : effect B :=
  match value m with
  | Returned v => let r := k v in Eff (printed m ++ printed r) (value r)
  | Raised e => Eff (printed m) (Raised e)
  end.

Notation "m >> k" := (bind m (fun _ => k))
  (at level 62, right associativity).

(** ** Bracketing methods *)

(** Local variables of [bisection] and [regula_falsi]; [c] is unbound
    until the first pass assigns it. *)
Record bracket_frame : Type := BracketFrame {
  br_a : Q;
  br_b : Q;
  br_c : option Q;
  br_iterations : list iteration
}.

(** The statement after the loop: [return c, abs(b - a), iterations]. *)
Definition bracket_return (st : bracket_frame) : outcome run_result :=
  match br_c st with
  | None => Raised UnboundLocalError
  | Some c =>
      Returned (Some c, Some (Qabs (br_b st - br_a st)),
                Some (br_iterations st))
  end.

(** The tail of a bracketing pass, shared by both methods: log, test the
    residual, replace an endpoint. *)
Definition bracket_step (f : Q -> Q) (tol : Q) (i : Z)
           (st : bracket_frame) (c : Q) : ctl bracket_frame run_result :=
  let a := br_a st in
  let b := br_b st in
  let iterations :=
    br_iterations st ++ [Iteration (i + 1) c (f c) (Qabs (b - a))] in
  if Py.lt (Qabs (f c)) tol then
    Return (Some c, Some (Qabs (b - a)), Some iterations)
  else if Py.lt (f a * f c) 0 then
    Continue (BracketFrame a c (Some c) iterations)
  else
    Continue (BracketFrame c b (Some c) iterations).

Definition bisection_body (f : Q -> Q) (tol : Q) (i : Z)
           (st : bracket_frame) : ctl bracket_frame run_result :=
  let c := (br_a st + br_b st) / 2 in
  bracket_step f tol i st c.

Definition bracket_init (a b : Q) : bracket_frame :=
  BracketFrame a b None [].

Definition bisection (f : Q -> Q) (a b tol : Q) (max_iter : Z)
  : effect run_result :=
  if Py.ge (f a * f b) 0 then
    print (Text "Bisection method fails.") >> pure (None, None, None)
  else
    of_outcome
      (fall_through bracket_return
         (for_range (bisection_body f tol) (Z.to_nat max_iter) 0%Z
                    (bracket_init a b))).

Definition regula_falsi_body (f : Q -> Q) (tol : Q) (i : Z)
           (st : bracket_frame) : ctl bracket_frame run_result :=
  let a := br_a st in
  let b := br_b st in
  c <- Py.truediv (a * f b - b * f a) (f b - f a) ;;
  bracket_step f tol i st c.

Definition regula_falsi (f : Q -> Q) (a b tol : Q) (max_iter : Z)
  : effect run_result :=
  if Py.ge (f a * f b) 0 then
    print (Text "Regula Falsi method fails.") >> pure (None, None, None)
  else
    of_outcome
      (fall_through bracket_return
         (for_range (regula_falsi_body f tol) (Z.to_nat max_iter) 0%Z
                    (bracket_init a b))).

(** ** Open methods *)

(** Local variables of [secant]; [x2] is unbound until the first pass. *)
Record secant_frame : Type := SecantFrame {
  sc_x0 : Q;
  sc_x1 : Q;
  sc_x2 : option Q;
  sc_iterations : list iteration
}.

Definition secant_body (f : Q -> Q) (tol : Q) (i : Z)
           (st : secant_frame) : ctl secant_frame run_result :=
  let x0 := sc_x0 st in
  let x1 := sc_x1 st in
  q <- Py.truediv (f x1 * (x1 - x0)) (f x1 - f x0) ;;
  let x2 := x1 - q in
  let iterations :=
    sc_iterations st ++ [Iteration (i + 1) x2 (f x2) (Qabs (x2 - x1))] in
  if Py.lt (Qabs (f x2)) tol then
    Return (Some x2, Some (Qabs (x2 - x1)), Some iterations)
  else
    Continue (SecantFrame x1 x2 (Some x2) iterations).

(** [return x2, abs(x2 - x1), iterations] after the loop. *)
Definition secant_return (st : secant_frame) : outcome run_result :=
  match sc_x2 st with
  | None => Raised UnboundLocalError
  | Some x2 =>
      Returned (Some x2, Some (Qabs (x2 - sc_x1 st)),
                Some (sc_iterations st))
  end.

Definition secant_init (x0 x1 : Q) : secant_frame :=
  SecantFrame x0 x1 None [].

Definition secant (f : Q -> Q) (x0 x1 tol : Q) (max_iter : Z)
  : effect run_result :=
  of_outcome
    (fall_through secant_return
       (for_range (secant_body f tol) (Z.to_nat max_iter) 0%Z
                  (secant_init x0 x1))).

(** Local variables of [newton_raphson], [fixed_point_iteration] and
    [modified_secant]; [x1] is unbound until the first pass. *)
Record point_frame : Type := PointFrame {
  pt_x0 : Q;
  pt_x1 : option Q;
  pt_iterations : list iteration
}.

(** [return x1, abs(x1 - x0), iterations] after the loop. *)
Definition point_return (st : point_frame) : outcome run_result :=
  match pt_x1 st with
  | None => Raised UnboundLocalError
  | Some x1 =>
      Returned (Some x1, Some (Qabs (x1 - pt_x0 st)),
                Some (pt_iterations st))
  end.

Definition point_init (x0 : Q) : point_frame := PointFrame x0 None [].

Definition newton_raphson_body (f df : Q -> Q) (tol : Q) (i : Z)
           (st : point_frame) : ctl point_frame run_result :=
  let x0 := pt_x0 st in
  q <- Py.truediv (f x0) (df x0) ;;
  let x1 := x0 - q in
  let iterations :=
    pt_iterations st ++ [Iteration (i + 1) x1 (f x1) (Qabs (x1 - x0))] in
  if Py.lt (Qabs (f x1)) tol then
    Return (Some x1, Some (Qabs (x1 - x0)), Some iterations)
  else
    Continue (PointFrame x1 (Some x1) iterations).

Definition newton_raphson (f df : Q -> Q) (x0 tol : Q) (max_iter : Z)
  : effect run_result :=
  of_outcome
    (fall_through point_return
       (for_range (newton_raphson_body f df tol) (Z.to_nat max_iter) 0%Z
                  (point_init x0))).

Definition fixed_point_iteration_body (g : Q -> Q) (tol : Q) (i : Z)
           (st : point_frame) : ctl point_frame run_result :=
  let x0 := pt_x0 st in
  let x1 := g x0 in
  let iterations :=
    pt_iterations st
      ++ [Iteration (i + 1) x1 (x1 - g x1) (Qabs (x1 - x0))] in
  if Py.lt (Qabs (x1 - x0)) tol then
    Return (Some x1, Some (Qabs (x1 - x0)), Some iterations)
  else
    Continue (PointFrame x1 (Some x1) iterations).

Definition fixed_point_iteration (g : Q -> Q) (x0 tol : Q) (max_iter : Z)
  : effect run_result :=
  of_outcome
    (fall_through point_return
       (for_range (fixed_point_iteration_body g tol) (Z.to_nat max_iter)
                  0%Z (point_init x0))).

Definition modified_secant_body (f : Q -> Q) (delta tol : Q) (i : Z)
           (st : point_frame) : ctl point_frame run_result :=
  let x0 := pt_x0 st in
  q <- Py.truediv (f x0 * delta * x0) (f (x0 + delta * x0) - f x0) ;;
  let x1 := x0 - q in
  let iterations :=
    pt_iterations st ++ [Iteration (i + 1) x1 (f x1) (Qabs (x1 - x0))] in
  if Py.lt (Qabs (f x1)) tol then
    Return (Some x1, Some (Qabs (x1 - x0)), Some iterations)
  else
    Continue (PointFrame x1 (Some x1) iterations).

Definition modified_secant (f : Q -> Q) (x0 delta tol : Q) (max_iter : Z)
  : effect run_result :=
  of_outcome
    (fall_through point_return
       (for_range (modified_secant_body f delta tol) (Z.to_nat max_iter)
                  0%Z (point_init x0))).

(** The passes each method enters, counted on the same loop. *)
Definition bisection_passes (f : Q -> Q) (a b tol : Q) (max_iter : Z)
  : nat :=
  if Py.ge (f a * f b) 0 then O
  else for_passes (bisection_body f tol) (Z.to_nat max_iter) 0%Z
                  (bracket_init a b).

Definition regula_falsi_passes (f : Q -> Q) (a b tol : Q) (max_iter : Z)
  : nat :=
  if Py.ge (f a * f b) 0 then O
  else for_passes (regula_falsi_body f tol) (Z.to_nat max_iter) 0%Z
                  (bracket_init a b).

Definition secant_passes (f : Q -> Q) (x0 x1 tol : Q) (max_iter : Z)
  : nat :=
  for_passes (secant_body f tol) (Z.to_nat max_iter) 0%Z
             (secant_init x0 x1).

Definition newton_raphson_passes (f df : Q -> Q) (x0 tol : Q)
           (max_iter : Z) : nat :=
  for_passes (newton_raphson_body f df tol) (Z.to_nat max_iter) 0%Z
             (point_init x0).

Definition fixed_point_iteration_passes (g : Q -> Q) (x0 tol : Q)
           (max_iter : Z) : nat :=
  for_passes (fixed_point_iteration_body g tol) (Z.to_nat max_iter) 0%Z
             (point_init x0).

Definition modified_secant_passes (f : Q -> Q) (x0 delta tol : Q)
           (max_iter : Z) : nat :=
  for_passes (modified_secant_body f delta tol) (Z.to_nat max_iter) 0%Z
             (point_init x0).

(** ** The command-line driver ([if __name__ == "__main__"]) *)

Inductive method : Set :=
| Bisection
| RegulaFalsi
| Secant
| NewtonRaphson
| FixedPoint
| ModifiedSecant.

(** The parsed arguments, as [parser.parse_args()] returns them when it
    accepts the command line ([params] then holds at least one number;
    a command line it refuses ends the script before any of this).
    [get_function] is the expression evaluator, an external
    collaborator: the expressions arrive here already as function
    handles, an absent or empty [--df] / [--g] as [None]. *)
Record cli_args : Type := CliArgs {
  arg_method : method;
  arg_expression : Q -> Q;
  arg_params : list Q;
  arg_tol : Q;
  arg_max_iter : Z;
  arg_delta : Q;
  arg_df : option (Q -> Q);
  arg_g : option (Q -> Q)
}.

(** [args.method.replace('_', ' ').title()]. *)
Definition method_title (m : method) : string :=
  match m with
  | Bisection => "Bisection"
  | RegulaFalsi => "Regula Falsi"
  | Secant => "Secant"
  | NewtonRaphson => "Newton Raphson"
  | FixedPoint => "Fixed Point"
  | ModifiedSecant => "Modified Secant"
  end.

Definition nothing : run_result := (None, None, None).

Definition complain (s : string) : effect run_result :=
  print (Text s) >> pure nothing.

(** The [if] / [elif] chain that picks the solver. *)
Definition dispatch (args : cli_args) : effect run_result :=
  let f := arg_expression args in
  let tol := arg_tol args in
  let max_iter := arg_max_iter args in
  match arg_method args, arg_params args with
  | Bisection, [a; b] => bisection f a b tol max_iter
  | Bisection, _ =>
      complain "Bisection method requires two parameters: a and b."
  | RegulaFalsi, [a; b] => regula_falsi f a b tol max_iter
  | RegulaFalsi, _ =>
      complain "Regula Falsi method requires two parameters: a and b."
  | Secant, [x0; x1] => secant f x0 x1 tol max_iter
  | Secant, _ =>
      complain "Secant method requires two parameters: x0 and x1."
  | NewtonRaphson, [x0] =>
      match arg_df args with
      | None =>
          complain "Newton-Raphson method requires the derivative of the function (--df)."
      | Some df => newton_raphson f df x0 tol max_iter
      end
  | NewtonRaphson, _ =>
      complain "Newton-Raphson method requires one parameter: x0."
  | FixedPoint, [x0] =>
      match arg_g args with
      | None =>
          complain "Fixed Point Iteration method requires the g(x) function (--g)."
      | Some g => fixed_point_iteration g x0 tol max_iter
      end
  | FixedPoint, _ =>
      complain "Fixed Point Iteration method requires one parameter: x0."
  | ModifiedSecant, [x0] =>
      modified_secant f x0 (arg_delta args) tol max_iter
  | ModifiedSecant, _ =>
      complain "Modified Secant method requires one parameter: x0."
  end.

(** The report printed when [root] and [iterations] are not [None]. *)
Definition report (m : method) (r : run_result) : effect unit :=
  match r with
  | (Some root, err, Some iterations) =>
      Eff ([Title (method_title m);
            Text "Iteration | Root | f(x) | Error"]
             ++ map Row iterations
             ++ [FinalRoot root; FinalError err;
                 Iterations (List.length iterations)])
          (Returned tt)
  | _ => pure tt
  end.

(** The whole script: an exception that reaches this level is uncaught
    and ends the process with a traceback. *)
Definition main (args : cli_args) : effect unit :=
  bind (dispatch args) (report (arg_method args)).

(** ** Results and logs *)

(** All three components are there. *)
Definition populated (r : run_result) : Prop :=
  match r with
  | (Some _, Some _, Some _) => True
  | _ => False
  end.

(** [x] is the estimate of the last entry of [log]. *)
Definition last_estimate (log : list iteration) (x : Q) : Prop :=
  exists l r, log = l ++ [r] /\ estimate r = x.

(** A full triple whose log has [k] entries, the last one holding the
    root. *)
Definition well_logged (k : nat) (r : run_result) : Prop :=
  exists root err log,
    r = (Some root, Some err, Some log)
    /\ List.length log = k
    /\ last_estimate log root.

(** The frame after [k] passes: [k] entries, and the estimate variable,
    once bound, is the estimate of the last entry. *)
Definition logged (log : list iteration) (x : option Q) (k : nat) : Prop :=
  List.length log = k /\ forall c, x = Some c -> last_estimate log c.

(** The same, on the frame of each family of methods. *)
Definition bracket_logged (k : nat) (st : bracket_frame) : Prop :=
  logged (br_iterations st) (br_c st) k.

Definition secant_logged (k : nat) (st : secant_frame) : Prop :=
  logged (sc_iterations st) (sc_x2 st) k.

Definition point_logged (k : nat) (st : point_frame) : Prop :=
  logged (pt_iterations st) (pt_x1 st) k.

(** ** Bisection in closed form *)

(** The bracket after one endpoint replacement. *)
Definition halve (f : Q -> Q) (ab : Q * Q) : Q * Q :=
  let c := (fst ab + snd ab) / 2 in
  if Py.lt (f (fst ab) * f c) 0 then (fst ab, c) else (c, snd ab).

(** The bracket after [k] replacements, its midpoint and its width. *)
Definition bracket_after (f : Q -> Q) (a b : Q) (k : nat) : Q * Q :=
  Nat.iter k (halve f) (a, b).

Definition midpoint (ab : Q * Q) : Q := (fst ab + snd ab) / 2.

Definition width (ab : Q * Q) : Q := Qabs (snd ab - fst ab).

(** The entry pass [j] (counted from 0) appends, the log after [k]
    passes, and the frame at the start of pass [k]. *)
Definition bisection_entry (f : Q -> Q) (a b : Q) (j : nat) : iteration :=
  let ab := bracket_after f a b j in
  Iteration (Z.of_nat j + 1) (midpoint ab) (f (midpoint ab)) (width ab).

Definition bisection_log (f : Q -> Q) (a b : Q) (k : nat)
  : list iteration :=
  map (bisection_entry f a b) (seq 0 k).

Definition bisection_frame (f : Q -> Q) (a b : Q) (k : nat)
  : bracket_frame :=
  let ab := bracket_after f a b k in
  BracketFrame (fst ab) (snd ab)
               match k with
               | O => None
               | Datatypes.S j => Some (midpoint (bracket_after f a b j))
               end
               (bisection_log f a b k).

(** Pass [k] meets the stopping rule [abs(f(c)) < tol]. *)
Definition stops_at (f : Q -> Q) (a b tol : Q) (k : nat) : bool :=
  Py.lt (Qabs (f (midpoint (bracket_after f a b k)))) tol.

(** What pass [k] returns when it meets the stopping rule. *)
Definition bisection_hit (f : Q -> Q) (a b : Q) (k : nat) : run_result :=
  let ab := bracket_after f a b k in
  (Some (midpoint ab), Some (width ab),
   Some (bisection_log f a b (Datatypes.S k))).

(** ** The iteration bound, continuity, the sign change *)

(** [ceil(log2((b - a) / tol))] as a pass count: the least [n >= 0] with
    [(b - a) / tol <= 2^n]. *)
Definition iteration_bound (a b tol : Q) : Z :=
  Z.log2_up (Qceiling ((b - a) / tol)).

(** Continuity of a function on the rationals. *)
Definition continuous (f : Q -> Q) : Prop :=
  forall x eps, 0 < eps ->
    exists d, 0 < d /\ forall y, Qabs (y - x) < d ->
                                 Qabs (f y - f x) < eps.

(** The endpoints held in a frame are of opposite sign. *)
Definition bracketed (f : Q -> Q) (st : bracket_frame) : Prop :=
  f (br_a st) * f (br_b st) < 0.

(** ** Functions used in the examples *)

(** [f(x) = x^2 - 2], the function of the spec's scenarios. *)
Definition square_minus_two (x : Q) : Q := x * x - 2.

(** [f(x) = 8x - 3]: a steep line with its root at [3/8]. *)
Definition steep (x : Q) : Q := 8 * x - 3.

(** [f(x) = x^2], whose values at [-1] and [1] agree. *)
Definition square (x : Q) : Q := x * x.

(** [f(x) = x^2 + 1]: from the guesses 0 and 1 the first secant step
    lands on [-1], where the function takes the value it has at 1. *)
Definition square_plus_one (x : Q) : Q := x * x + 1.

(** ** What one pass does, for all six methods *)

(** The entries of a log are numbered from 1 and record the residual
    function [res] at their estimate. *)
Definition entries_ok (res : Q -> Q) (log : list iteration) : Prop :=
  forall j r, nth_error log j = Some r ->
              index r = (Z.of_nat j + 1)%Z /\ residual r = res (estimate r).

(** The errors of a log are the distances between successive estimates,
    starting from the point [x]. *)
Fixpoint steps_from (x : Q) (log : list iteration) : Prop :=
  match log with
  | [] => True
  | r :: l => error r = Qabs (estimate r - x) /\ steps_from (estimate r) l
  end.

(** The estimate of the last entry, or [x] for an empty log. *)
Definition last_point (x : Q) (log : list iteration) : Q :=
  fold_left (fun _ r => estimate r) log x.

(** The shape every loop body of the file has.  In a frame [s], with
    [log s] the entries so far and [cur s] the estimate variable: the
    pass either raises [ZeroDivisionError] (then [fault s]), or it
    computes a point [x] with [next s x], appends the entry
    [[i + 1, x, res x, err s x]], and returns [(x, err s x, log)] when
    [stop s x], else goes on with [x] as the estimate. *)
Definition pass_ok {S : Type} (log : S -> list iteration)
           (cur : S -> option Q) (fault : S -> Prop)
           (next : S -> Q -> Prop) (res : Q -> Q) (err : S -> Q -> Q)
           (stop : S -> Q -> bool)
           (body : Z -> S -> ctl S run_result) : Prop :=
  forall i s,
    match body i s with
    | Raise e => e = ZeroDivisionError /\ fault s
    | Return r =>
        exists x, next s x /\ stop s x = true
                  /\ r = (Some x, Some (err s x),
                          Some (log s
                                  ++ [Iteration (i + 1) x (res x)
                                                (err s x)]))
    | Continue s' =>
        exists x, next s x /\ stop s x = false
                  /\ log s' = log s ++ [Iteration (i + 1) x (res x)
                                                  (err s x)]
                  /\ cur s' = Some x
    end.

(** The statement after the loop returns the estimate variable and the
    log, when the variable is bound. *)
Definition after_ok {S : Type} (log : S -> list iteration)
           (cur : S -> option Q) (after : S -> outcome run_result)
  : Prop :=
  forall s,
    match cur s with
    | None => after s = Raised UnboundLocalError
    | Some x => exists e, after s = Returned (Some x, Some e, Some (log s))
    end.

Section RunShape.

Context {S : Type}.
Variables (log : S -> list iteration) (cur : S -> option Q).
Variables (next : S -> Q -> Prop).
Variables (res : Q -> Q) (err : S -> Q -> Q) (stop : S -> Q -> bool).

(** The last pass made: from the frame [sp] it computed [x], logged it
    as entry [k] of [lg], and the stopping test came out as [t]. *)
Definition last_pass (sp : S) (t : bool) (k : nat) (x : Q)
           (lg : list iteration) : Prop :=
  next sp x /\ stop sp x = t
  /\ (exists l, lg = l ++ [Iteration (Z.of_nat k) x (res x) (err sp x)])
  /\ List.length lg = k
  /\ entries_ok res lg.

(** The frame after [k] passes that went on. *)
Definition run_inv (k : nat) (s : S) : Prop :=
  List.length (log s) = k
  /\ entries_ok res (log s)
  /\ ((k = O /\ cur s = None)
      \/ exists sp x, cur s = Some x /\ last_pass sp false k x (log s)).

(** What pass [k] returns when it stops. *)
Definition run_post (k : nat) (r : run_result) : Prop :=
  exists sp x lg,
    r = (Some x, Some (err sp x), Some lg) /\ last_pass sp true k x lg.

End RunShape.

(** The point each method computes in a pass. *)
Definition regula_falsi_point (f : Q -> Q) (a b : Q) : Q :=
  (a * f b - b * f a) / (f b - f a).

Definition secant_point (f : Q -> Q) (x0 x1 : Q) : Q :=
  x1 - f x1 * (x1 - x0) / (f x1 - f x0).

Definition newton_raphson_point (f df : Q -> Q) (x0 : Q) : Q :=
  x0 - f x0 / df x0.

Definition modified_secant_point (f : Q -> Q) (delta x0 : Q) : Q :=
  x0 - f x0 * delta * x0 / (f (x0 + delta * x0) - f x0).

(** The stopping test on the residual, [abs(f(x)) < tol]. *)
Definition residual_stop (f : Q -> Q) (tol : Q) (x : Q) : bool :=
  Py.lt (Qabs (f x)) tol.

(** ** Brackets *)

(** [c] lies between [a] and [b], whichever of the two is the smaller. *)
Definition between (a b c : Q) : Prop :=
  (a <= c /\ c <= b) \/ (b <= c /\ c <= a).

(** The pair [(root, err)] is backed by a sign change: there are two
    points where [f] takes values of opposite sign, each at most [err]
    away from [root]. *)
Definition encloses (f : Q -> Q) (root err : Q) : Prop :=
  exists a' b',
    f a' * f b' < 0
    /\ Qabs (root - a') <= err /\ Qabs (root - b') <= err.

(** ** Straight lines *)

(** [f(x) = m x + q]. *)
Definition affine (m q : Q) (x : Q) : Q := m * x + q.

(** ** The command line *)

(** How many numbers each method takes in [params]. *)
Definition arity (m : method) : nat :=
  match m with
  | Bisection | RegulaFalsi | Secant => 2
  | NewtonRaphson | FixedPoint | ModifiedSecant => 1
  end.

(** The second expression a method needs is there. *)
Definition second_expression_given (args : cli_args) : bool :=
  match arg_method args with
  | NewtonRaphson =>
      match arg_df args with Some _ => true | None => false end
  | FixedPoint =>
      match arg_g args with Some _ => true | None => false end
  | _ => true
  end.

(** The lines of a report: a title, the header, one row per entry, the
    root, the error and the count. *)
Definition report_lines (m : method) (root err : Q)
           (log : list iteration) : list line :=
  [Title (method_title m); Text "Iteration | Root | f(x) | Error"]
    ++ map Row log
    ++ [FinalRoot root; FinalError (Some err);
        Iterations (List.length log)].

(** The three things a solver called from the command line does: print
    one message and return the empty triple, raise without printing, or
    return a full triple without printing; in the last case the root is
    the estimate of the last entry. *)
Definition tidy (e : effect run_result) : Prop :=
  (exists s, e = Eff [Text s] (Returned nothing))
  \/ (exists x, e = Eff [] (Raised x))
  \/ (exists root err log,
         e = Eff [] (Returned (Some root, Some err, Some log))
         /\ last_estimate log root).

(** ** Python floats and NumPy scalars side by side

    The definitions above read a number as a finite Python float in
    exact arithmetic.  A handle built by [get_function] evaluates its
    expression with [np] in scope, so it may return a [numpy.float64]
    instead; on such a value [/] does not raise on a zero divisor, it
    gives [inf] or [nan] (and warns on the error stream), after which
    the loop computes with these.  This module models that side of the
    three methods that divide by a variable quantity: a value is a float
    of either kind, finite (an exact rational: rounding, overflow and
    underflow are left out), a signed zero, an infinity or [nan]. *)

Module Floats.

Inductive num : Type :=
| NaN
| Inf (negative : bool)
| Zero (negative : bool)
| Fin (q : Q).

(** The result of exact finite arithmetic; an exact zero result is
    [+0.0]. *)
Definition of_Q (q : Q) : num :=
  if Qeq_bool q 0 then Zero false else Fin q.

Definition is_negative (q : Q) : bool := Py.lt q 0.

Definition opp (a : num) : num :=
  match a with
  | NaN => NaN
  | Inf s => Inf (negb s)
  | Zero s => Zero (negb s)
  | Fin q => Fin (- q)
  end.

Definition abs (a : num) : num :=
  match a with
  | NaN => NaN
  | Inf _ => Inf false
  | Zero _ => Zero false
  | Fin q => Fin (Qabs q)
  end.

Definition add (a b : num) : num :=
  match a, b with
  | NaN, _ | _, NaN => NaN
  | Inf s, Inf t => if Bool.eqb s t then Inf s else NaN
  | Inf s, _ => Inf s
  | _, Inf t => Inf t
  | Zero s, Zero t => Zero (s && t)
  | Zero _, Fin q => Fin q
  | Fin p, Zero _ => Fin p
  | Fin p, Fin q => of_Q (p + q)
  end.

Definition sub (a b : num) : num := add a (opp b).

Definition mul (a b : num) : num :=
  match a, b with
  | NaN, _ | _, NaN => NaN
  | Inf _, Zero _ | Zero _, Inf _ => NaN
  | Inf s, Inf t => Inf (xorb s t)
  | Inf s, Fin q => Inf (xorb s (is_negative q))
  | Fin p, Inf t => Inf (xorb (is_negative p) t)
  | Zero s, Zero t => Zero (xorb s t)
  | Zero s, Fin q => Zero (xorb s (is_negative q))
  | Fin p, Zero t => Zero (xorb (is_negative p) t)
  | Fin p, Fin q => of_Q (p * q)
  end.

(** IEEE division: what [/] computes when it does not raise. *)
Definition div (a b : num) : num :=
  match a, b with
  | NaN, _ | _, NaN => NaN
  | Inf _, Inf _ => NaN
  | Zero _, Zero _ => NaN
  | Inf s, Zero t => Inf (xorb s t)
  | Inf s, Fin q => Inf (xorb s (is_negative q))
  | Zero s, Inf t => Zero (xorb s t)
  | Zero s, Fin q => Zero (xorb s (is_negative q))
  | Fin p, Zero t => Inf (xorb (is_negative p) t)
  | Fin p, Inf t => Zero (xorb (is_negative p) t)
  | Fin p, Fin q => of_Q (p / q)
  end.

(** [a < b]: false as soon as one side is [nan]; the two zeros are
    equal. *)
Definition lt (a b : num) : bool :=
  match a, b with
  | NaN, _ | _, NaN => false
  | Inf true, Inf true => false
  | Inf true, _ => true
  | _, Inf true => false
  | Inf false, _ => false
  | _, Inf false => true
  | Zero _, Zero _ => false
  | Zero _, Fin q => Py.lt 0 q
  | Fin p, Zero _ => Py.lt p 0
  | Fin p, Fin q => Py.lt p q
  end.

(** [a == b]. *)
Definition eqb (a b : num) : bool :=
  match a, b with
  | NaN, _ | _, NaN => false
  | Inf s, Inf t => Bool.eqb s t
  | Zero _, Zero _ => true
  | Zero _, Fin q => Qeq_bool 0 q
  | Fin p, Zero _ => Qeq_bool p 0
  | Fin p, Fin q => Qeq_bool p q
  | _, _ => false
  end.

(** A float and its run-time type: [numpy = true] for a
    [numpy.float64], [false] for a Python [float]. *)
Record value : Type := Val {
  num_of : num;
  numpy : bool
}.

Definition py (q : Q) : value := Val (of_Q q) false.

(** An operation with a NumPy operand is NumPy's, and so is its
    result. *)
Definition vadd (a b : value) : value :=
  Val (add (num_of a) (num_of b)) (numpy a || numpy b).

Definition vsub (a b : value) : value :=
  Val (sub (num_of a) (num_of b)) (numpy a || numpy b).

Definition vmul (a b : value) : value :=
  Val (mul (num_of a) (num_of b)) (numpy a || numpy b).

Definition vabs (a : value) : value := Val (abs (num_of a)) (numpy a).

Definition vlt (a b : value) : bool := lt (num_of a) (num_of b).

Definition veqb (a b : value) : bool := eqb (num_of a) (num_of b).

(** [a / b]: between two Python floats a zero divisor raises; with a
    NumPy operand the IEEE quotient is returned whatever the divisor. *)
Definition truediv (a b : value) : outcome value :=
  if numpy a || numpy b then
    Returned (Val (div (num_of a) (num_of b)) true)
  else
    match num_of b with
    | Zero _ => Raised ZeroDivisionError
    | _ => Returned (Val (div (num_of a) (num_of b)) false)
    end.

Definition bind_ctl {S R : Type} (m : outcome value)
           (k : value -> ctl S R) : ctl S R :=
  match m with
  | Returned q => k q
  | Raised e => Raise e
  end.

(** One entry of [iterations], and the triple returned. *)
Record iteration : Type := Iteration {
  index : Z;
  estimate : value;
  residual : value;
  error : value
}.

Definition run_result : Type :=
  (option value * option value * option (list iteration))%type.

Record secant_frame : Type := SecantFrame {
  sc_x0 : value;
  sc_x1 : value;
  sc_x2 : option value;
  sc_iterations : list iteration
}.

Definition secant_body (f : value -> value) (tol : value) (i : Z)
           (st : secant_frame) : ctl secant_frame run_result :=
  let x0 := sc_x0 st in
  let x1 := sc_x1 st in
  bind_ctl (truediv (vmul (f x1) (vsub x1 x0)) (vsub (f x1) (f x0)))
    (fun q =>
       let x2 := vsub x1 q in
       let iterations :=
         sc_iterations st
           ++ [Iteration (i + 1) x2 (f x2) (vabs (vsub x2 x1))] in
       if vlt (vabs (f x2)) tol then
         Return (Some x2, Some (vabs (vsub x2 x1)), Some iterations)
       else
         Continue (SecantFrame x1 x2 (Some x2) iterations)).

Definition secant_return (st : secant_frame) : outcome run_result :=
  match sc_x2 st with
  | None => Raised UnboundLocalError
  | Some x2 =>
      Returned (Some x2, Some (vabs (vsub x2 (sc_x1 st))),
                Some (sc_iterations st))
  end.

Definition secant (f : value -> value) (x0 x1 tol : value)
           (max_iter : Z) : effect run_result :=
  of_outcome
    (fall_through secant_return
       (for_range (secant_body f tol) (Z.to_nat max_iter) 0%Z
                  (SecantFrame x0 x1 None []))).

Record point_frame : Type := PointFrame {
  pt_x0 : value;
  pt_x1 : option value;
  pt_iterations : list iteration
}.

Definition point_return (st : point_frame) : outcome run_result :=
  match pt_x1 st with
  | None => Raised UnboundLocalError
  | Some x1 =>
      Returned (Some x1, Some (vabs (vsub x1 (pt_x0 st))),
                Some (pt_iterations st))
  end.

Definition newton_raphson_body (f df : value -> value) (tol : value)
           (i : Z) (st : point_frame) : ctl point_frame run_result :=
  let x0 := pt_x0 st in
  bind_ctl (truediv (f x0) (df x0))
    (fun q =>
       let x1 := vsub x0 q in
       let iterations :=
         pt_iterations st
           ++ [Iteration (i + 1) x1 (f x1) (vabs (vsub x1 x0))] in
       if vlt (vabs (f x1)) tol then
         Return (Some x1, Some (vabs (vsub x1 x0)), Some iterations)
       else
         Continue (PointFrame x1 (Some x1) iterations)).

Definition newton_raphson (f df : value -> value) (x0 tol : value)
           (max_iter : Z) : effect run_result :=
  of_outcome
    (fall_through point_return
       (for_range (newton_raphson_body f df tol) (Z.to_nat max_iter) 0%Z
                  (PointFrame x0 None []))).

Definition modified_secant_body (f : value -> value) (delta tol : value)
           (i : Z) (st : point_frame) : ctl point_frame run_result :=
  let x0 := pt_x0 st in
  bind_ctl (truediv (vmul (vmul (f x0) delta) x0)
                    (vsub (f (vadd x0 (vmul delta x0))) (f x0)))
    (fun q =>
       let x1 := vsub x0 q in
       let iterations :=
         pt_iterations st
           ++ [Iteration (i + 1) x1 (f x1) (vabs (vsub x1 x0))] in
       if vlt (vabs (f x1)) tol then
         Return (Some x1, Some (vabs (vsub x1 x0)), Some iterations)
       else
         Continue (PointFrame x1 (Some x1) iterations)).

Definition modified_secant (f : value -> value) (x0 delta tol : value)
           (max_iter : Z) : effect run_result :=
  of_outcome
    (fall_through point_return
       (for_range (modified_secant_body f delta tol) (Z.to_nat max_iter)
                  0%Z (PointFrame x0 None []))).

(** The handles [np.square(x)] and [np.square(x) - 2]: NumPy's result
    whatever the kind of [x]. *)
Definition np_square (x : value) : value :=
  Val (mul (num_of x) (num_of x)) true.

Definition np_square_minus_two (x : value) : value :=
  vsub (np_square x) (py 2).

(** The handles [x*x], [x*x - 2] and [2*x]: plain arithmetic, of the
    kind of [x]. *)
Definition times_itself (x : value) : value := vmul x x.

Definition times_itself_minus_two (x : value) : value :=
  vsub (vmul x x) (py 2).

Definition twice (x : value) : value := vmul (py 2) x.

Definition nan_numpy : value := Val NaN true.

End Floats.

(** * Properties *)

(** ** Comparisons and division *)

Lemma lt_true (x y : Q) : Py.lt x y = true <-> x < y.
Proof.
  unfold Py.lt. rewrite Bool.negb_true_iff.
  split; intro H.
  - apply Qnot_le_lt. intro Hle.
    apply Qle_bool_iff in Hle. congruence.
  - destruct (Qle_bool y x) eqn:E; [|reflexivity].
    apply Qle_bool_iff in E. exfalso. exact (Qlt_not_le _ _ H E).
Qed.

Lemma lt_false (x y : Q) : Py.lt x y = false <-> y <= x.
Proof.
  unfold Py.lt. rewrite Bool.negb_false_iff. apply Qle_bool_iff.
Qed.

Lemma ge_true (x y : Q) : Py.ge x y = true <-> y <= x.
Proof. unfold Py.ge. apply Qle_bool_iff. Qed.

Lemma ge_false (x y : Q) : Py.ge x y = false <-> x < y.
Proof.
  unfold Py.ge. split; intro H.
  - apply Qnot_le_lt. intro Hle.
    apply Qle_bool_iff in Hle. congruence.
  - destruct (Qle_bool y x) eqn:E; [|reflexivity].
    apply Qle_bool_iff in E. exfalso. exact (Qlt_not_le _ _ H E).
Qed.

Lemma truediv_zero (x y : Q) :
  y == 0 -> Py.truediv x y = Raised ZeroDivisionError.
Proof.
  intro H. unfold Py.truediv.
  now rewrite (Qeq_eq_bool _ _ H).
Qed.

Lemma truediv_nonzero (x y : Q) :
  ~ y == 0 -> Py.truediv x y = Returned (x / y).
Proof.
  intro H. unfold Py.truediv.
  destruct (Qeq_bool y 0) eqn:E; [|reflexivity].
  apply Qeq_bool_iff in E. contradiction.
Qed.

Lemma truediv_raises (x y : Q) (e : exn) :
  Py.truediv x y = Raised e -> e = ZeroDivisionError /\ y == 0.
Proof.
  unfold Py.truediv. destruct (Qeq_bool y 0) eqn:E; [|discriminate].
  intro H. inversion H. split; [reflexivity|now apply Qeq_bool_iff].
Qed.

(** ** The [for] loop *)

Section Loops.

Context {S R : Type}.
Variable body : Z -> S -> ctl S R.

(** Running [n + m] passes is running [n] and, when the range was used
    up, [m] more from where the loop stands. *)
Lemma for_range_app (n m : nat) (i : Z) (s : S) :
  for_range body (n + m) i s =
  match for_range body n i s with
  | Exhausted s' => for_range body m (i + Z.of_nat n)%Z s'
  | Broke r => Broke r
  | Failed e => Failed e
  end.
Proof.
  revert i s. induction n as [|n IH]; intros i s.
  - simpl. now rewrite Z.add_0_r.
  - change (Datatypes.S n + m)%nat with (Datatypes.S (n + m)).
    cbn [for_range].
    destruct (body i s) as [s'|r|e]; try reflexivity.
    rewrite IH. rewrite Nat2Z.inj_succ.
    now replace (i + 1 + Z.of_nat n)%Z with (i + Z.succ (Z.of_nat n))%Z
      by lia.
Qed.

Lemma for_passes_le (n : nat) (i : Z) (s : S) :
  (for_passes body n i s <= n)%nat.
Proof.
  revert i s. induction n as [|n IH]; intros i s; simpl.
  - lia.
  - destruct (body i s); try lia. specialize (IH (i + 1)%Z s0). lia.
Qed.

Lemma for_passes_exhausted (n : nat) (i : Z) (s s' : S) :
  for_range body n i s = Exhausted s' -> for_passes body n i s = n.
Proof.
  revert i s. induction n as [|n IH]; intros i s; simpl.
  - reflexivity.
  - destruct (body i s); try discriminate.
    intro H. now rewrite (IH _ _ H).
Qed.

(** A prefix of an exhausted loop is exhausted. *)
Lemma for_range_prefix (n m : nat) (i : Z) (s s' : S) :
  for_range body (n + m) i s = Exhausted s' ->
  exists s1, for_range body n i s = Exhausted s1.
Proof.
  rewrite for_range_app.
  destruct (for_range body n i s) as [s1|r|e]; try discriminate.
  intros _. now exists s1.
Qed.

(** The loop rule: [Inv k s] holds of the frame at the start of the pass
    with [i = k]; [Post k r] of a value returned by the [k]-th pass. *)
Lemma for_range_rule (Inv : nat -> S -> Prop) (Post : nat -> R -> Prop) :
  (forall k s s', Inv k s -> body (Z.of_nat k) s = Continue s' ->
                  Inv (Datatypes.S k) s') ->
  (forall k s r, Inv k s -> body (Z.of_nat k) s = Return r ->
                 Post (Datatypes.S k) r) ->
  forall n k s, Inv k s ->
    match for_range body n (Z.of_nat k) s with
    | Exhausted s' => Inv (k + n)%nat s'
    | Broke r => Post (k + for_passes body n (Z.of_nat k) s)%nat r
    | Failed _ => True
    end.
Proof.
  intros Hcont Hret.
  induction n as [|n IH]; intros k s HI; simpl.
  - now rewrite Nat.add_0_r.
  - destruct (body (Z.of_nat k) s) as [s'|r|e] eqn:E.
    + specialize (IH (Datatypes.S k) s' (Hcont _ _ _ HI E)).
      replace (Z.of_nat k + 1)%Z with (Z.of_nat (Datatypes.S k)) by lia.
      destruct (for_range body n (Z.of_nat (Datatypes.S k)) s').
      * now replace (k + Datatypes.S n)%nat with (Datatypes.S k + n)%nat
          by lia.
      * now replace (k + Datatypes.S (for_passes body n
                                        (Z.of_nat (Datatypes.S k)) s'))%nat
          with (Datatypes.S k + for_passes body n
                                  (Z.of_nat (Datatypes.S k)) s')%nat
          by lia.
      * exact I.
    + rewrite Nat.add_1_r. exact (Hret _ _ _ HI E).
    + exact I.
Qed.

Lemma for_passes_app (n m : nat) (i : Z) (s : S) :
  for_passes body (n + m) i s =
  match for_range body n i s with
  | Exhausted s' => (n + for_passes body m (i + Z.of_nat n)%Z s')%nat
  | _ => for_passes body n i s
  end.
Proof.
  revert i s. induction n as [|n IH]; intros i s.
  - simpl. now rewrite Z.add_0_r.
  - change (Datatypes.S n + m)%nat with (Datatypes.S (n + m)).
    cbn [for_range for_passes].
    destruct (body i s) as [s'|r|e]; try reflexivity.
    rewrite IH. rewrite Nat2Z.inj_succ.
    replace (i + 1 + Z.of_nat n)%Z with (i + Z.succ (Z.of_nat n))%Z
      by lia.
    now destruct (for_range body n (i + 1)%Z s').
Qed.

(** Under an invariant that rules out a raising pass, the loop does not
    fail. *)
Lemma for_range_safe (Inv : nat -> S -> Prop) :
  (forall k s s', Inv k s -> body (Z.of_nat k) s = Continue s' ->
                  Inv (Datatypes.S k) s') ->
  (forall k s e, Inv k s -> body (Z.of_nat k) s <> Raise e) ->
  forall n k s e, Inv k s ->
    for_range body n (Z.of_nat k) s <> Failed e.
Proof.
  intros Hcont Hsafe.
  induction n as [|n IH]; intros k s e HI; simpl; [discriminate|].
  destruct (body (Z.of_nat k) s) as [s'|r|e'] eqn:E.
  - replace (Z.of_nat k + 1)%Z with (Z.of_nat (Datatypes.S k)) by lia.
    apply IH. exact (Hcont _ _ _ HI E).
  - discriminate.
  - destruct (Hsafe _ _ _ HI E).
Qed.

(** A pass that raises after [k] completed passes ends the loop there,
    whatever is left of the range. *)
Lemma for_range_fails_at (n k : nat) (s st : S) (e : exn) :
  (k < n)%nat ->
  for_range body k 0%Z s = Exhausted st ->
  body (Z.of_nat k) st = Raise e ->
  for_range body n 0%Z s = Failed e
  /\ for_passes body n 0%Z s = Datatypes.S k.
Proof.
  intros Hk Hrun Hbody.
  replace n with (k + Datatypes.S (n - Datatypes.S k))%nat by lia.
  rewrite for_range_app, for_passes_app, Hrun.
  cbn [for_range for_passes]. change (0 + Z.of_nat k)%Z with (Z.of_nat k).
  rewrite Hbody. split; [reflexivity|lia].
Qed.

(** The same rule through [fall_through], for a loop started at
    [i = 0]: what a returning call returns. *)
Lemma fall_through_rule (after : S -> outcome R)
      (Inv : nat -> S -> Prop) (Post : nat -> R -> Prop) :
  (forall k s s', Inv k s -> body (Z.of_nat k) s = Continue s' ->
                  Inv (Datatypes.S k) s') ->
  (forall k s r, Inv k s -> body (Z.of_nat k) s = Return r ->
                 Post (Datatypes.S k) r) ->
  (forall k s r, Inv k s -> after s = Returned r -> Post k r) ->
  forall n s r, Inv O s ->
    fall_through after (for_range body n 0%Z s) = Returned r ->
    Post (for_passes body n 0%Z s) r.
Proof.
  intros Hcont Hret Hafter n s r HI.
  pose proof (for_range_rule Inv Post Hcont Hret n O s HI) as H.
  change (Z.of_nat 0) with 0%Z in H.
  destruct (for_range body n 0%Z s) as [s'|r'|e] eqn:E; simpl.
  - rewrite (for_passes_exhausted _ _ _ _ E).
    intro Hr. exact (Hafter _ _ _ H Hr).
  - intro Hr. inversion Hr; subst. exact H.
  - discriminate.
Qed.

End Loops.

(** ** What the solvers return *)

Lemma well_logged_populated (k : nat) (r : run_result) :
  well_logged k r -> populated r.
Proof. intros (root & err & log & -> & _). exact I. Qed.

Lemma logged_init : logged [] None O.
Proof. split; [reflexivity|discriminate]. Qed.

Lemma logged_snoc (log : list iteration) (x : option Q) (k : nat)
      (i : Z) (c fc err : Q) :
  logged log x k ->
  logged (log ++ [Iteration i c fc err]) (Some c) (Datatypes.S k).
Proof.
  intros [Hlen _]. split.
  - rewrite length_app. simpl. lia.
  - intros c' Hc. inversion Hc; subst.
    now exists log, (Iteration i c' fc err).
Qed.

Lemma well_logged_snoc (log : list iteration) (x : option Q) (k : nat)
      (i : Z) (c fc err e : Q) :
  logged log x k ->
  well_logged (Datatypes.S k)
              (Some c, Some e, Some (log ++ [Iteration i c fc err])).
Proof.
  intro H. destruct (logged_snoc log x k i c fc err H) as [Hlen Hlast].
  exists c, e, (log ++ [Iteration i c fc err]).
  repeat split; [exact Hlen|now apply Hlast].
Qed.

(** Case analysis of one pass: unfold the body in [H], split on the
    division and on each test. *)
Ltac split_body H :=
  cbv beta zeta in H;
  repeat match type of H with
    | context [Py.truediv ?x ?y] =>
        let E := fresh "Ediv" in
        destruct (Py.truediv x y) eqn:E;
        unfold Py.bind_ctl in H; cbv beta iota zeta in H
    | context [if ?t then _ else _] =>
        let E := fresh "Etest" in destruct t eqn:E
    end;
  try discriminate H.

Section Logging.

Variables (f df g : Q -> Q) (tol delta : Q).

Lemma bracket_step_continue (i : Z) (st st' : bracket_frame) (c : Q)
      (k : nat) :
  bracket_logged k st -> bracket_step f tol i st c = Continue st' ->
  bracket_logged (Datatypes.S k) st'.
Proof.
  intros HI H. unfold bracket_step in H. split_body H;
    inversion H; subst; unfold bracket_logged; simpl;
    eapply logged_snoc; exact HI.
Qed.

Lemma bracket_step_return (i : Z) (st : bracket_frame) (c : Q)
      (r : run_result) (k : nat) :
  bracket_logged k st -> bracket_step f tol i st c = Return r ->
  well_logged (Datatypes.S k) r.
Proof.
  intros HI H. unfold bracket_step in H. split_body H.
  inversion H; subst. eapply well_logged_snoc; exact HI.
Qed.

Lemma bracket_return_logged (k : nat) (st : bracket_frame)
      (r : run_result) :
  bracket_logged k st -> bracket_return st = Returned r ->
  well_logged k r.
Proof.
  intros [Hlen Hlast] H. unfold bracket_return in H.
  destruct (br_c st) as [c|] eqn:E; [|discriminate].
  inversion H; subst.
  exists c, (Qabs (br_b st - br_a st)), (br_iterations st).
  repeat split. now apply Hlast.
Qed.

Lemma bisection_body_continue (k : nat) (st st' : bracket_frame) :
  bracket_logged k st -> bisection_body f tol (Z.of_nat k) st = Continue st' ->
  bracket_logged (Datatypes.S k) st'.
Proof. unfold bisection_body. apply bracket_step_continue. Qed.

Lemma bisection_body_return (k : nat) (st : bracket_frame)
      (r : run_result) :
  bracket_logged k st -> bisection_body f tol (Z.of_nat k) st = Return r ->
  well_logged (Datatypes.S k) r.
Proof. unfold bisection_body. apply bracket_step_return. Qed.

Lemma regula_falsi_body_continue (k : nat) (st st' : bracket_frame) :
  bracket_logged k st ->
  regula_falsi_body f tol (Z.of_nat k) st = Continue st' ->
  bracket_logged (Datatypes.S k) st'.
Proof.
  intros HI H. unfold regula_falsi_body in H.
  cbv beta zeta in H.
  destruct (Py.truediv _ _); [|discriminate H].
  exact (bracket_step_continue _ _ _ _ _ HI H).
Qed.

Lemma regula_falsi_body_return (k : nat) (st : bracket_frame)
      (r : run_result) :
  bracket_logged k st ->
  regula_falsi_body f tol (Z.of_nat k) st = Return r ->
  well_logged (Datatypes.S k) r.
Proof.
  intros HI H. unfold regula_falsi_body in H.
  cbv beta zeta in H.
  destruct (Py.truediv _ _); [|discriminate H].
  exact (bracket_step_return _ _ _ _ _ HI H).
Qed.

Lemma secant_body_continue (k : nat) (st st' : secant_frame) :
  secant_logged k st -> secant_body f tol (Z.of_nat k) st = Continue st' ->
  secant_logged (Datatypes.S k) st'.
Proof.
  intros HI H. unfold secant_body in H. split_body H.
  inversion H; subst. unfold secant_logged; simpl.
  eapply logged_snoc; exact HI.
Qed.

Lemma secant_body_return (k : nat) (st : secant_frame) (r : run_result) :
  secant_logged k st -> secant_body f tol (Z.of_nat k) st = Return r ->
  well_logged (Datatypes.S k) r.
Proof.
  intros HI H. unfold secant_body in H. split_body H.
  inversion H; subst. eapply well_logged_snoc; exact HI.
Qed.

Lemma secant_return_logged (k : nat) (st : secant_frame) (r : run_result) :
  secant_logged k st -> secant_return st = Returned r -> well_logged k r.
Proof.
  intros [Hlen Hlast] H. unfold secant_return in H.
  destruct (sc_x2 st) as [x2|] eqn:E; [|discriminate].
  inversion H; subst.
  exists x2, (Qabs (x2 - sc_x1 st)), (sc_iterations st).
  repeat split. now apply Hlast.
Qed.

Lemma point_return_logged (k : nat) (st : point_frame) (r : run_result) :
  point_logged k st -> point_return st = Returned r -> well_logged k r.
Proof.
  intros [Hlen Hlast] H. unfold point_return in H.
  destruct (pt_x1 st) as [x1|] eqn:E; [|discriminate].
  inversion H; subst.
  exists x1, (Qabs (x1 - pt_x0 st)), (pt_iterations st).
  repeat split. now apply Hlast.
Qed.

Lemma newton_raphson_body_continue (k : nat) (st st' : point_frame) :
  point_logged k st ->
  newton_raphson_body f df tol (Z.of_nat k) st = Continue st' ->
  point_logged (Datatypes.S k) st'.
Proof.
  intros HI H. unfold newton_raphson_body in H. split_body H.
  inversion H; subst. unfold point_logged; simpl.
  eapply logged_snoc; exact HI.
Qed.

Lemma newton_raphson_body_return (k : nat) (st : point_frame)
      (r : run_result) :
  point_logged k st ->
  newton_raphson_body f df tol (Z.of_nat k) st = Return r ->
  well_logged (Datatypes.S k) r.
Proof.
  intros HI H. unfold newton_raphson_body in H. split_body H.
  inversion H; subst. eapply well_logged_snoc; exact HI.
Qed.

Lemma fixed_point_iteration_body_continue (k : nat)
      (st st' : point_frame) :
  point_logged k st ->
  fixed_point_iteration_body g tol (Z.of_nat k) st = Continue st' ->
  point_logged (Datatypes.S k) st'.
Proof.
  intros HI H. unfold fixed_point_iteration_body in H. split_body H.
  inversion H; subst. unfold point_logged; simpl.
  eapply logged_snoc; exact HI.
Qed.

Lemma fixed_point_iteration_body_return (k : nat) (st : point_frame)
      (r : run_result) :
  point_logged k st ->
  fixed_point_iteration_body g tol (Z.of_nat k) st = Return r ->
  well_logged (Datatypes.S k) r.
Proof.
  intros HI H. unfold fixed_point_iteration_body in H. split_body H.
  inversion H; subst. eapply well_logged_snoc; exact HI.
Qed.

Lemma modified_secant_body_continue (k : nat) (st st' : point_frame) :
  point_logged k st ->
  modified_secant_body f delta tol (Z.of_nat k) st = Continue st' ->
  point_logged (Datatypes.S k) st'.
Proof.
  intros HI H. unfold modified_secant_body in H. split_body H.
  inversion H; subst. unfold point_logged; simpl.
  eapply logged_snoc; exact HI.
Qed.

Lemma modified_secant_body_return (k : nat) (st : point_frame)
      (r : run_result) :
  point_logged k st ->
  modified_secant_body f delta tol (Z.of_nat k) st = Return r ->
  well_logged (Datatypes.S k) r.
Proof.
  intros HI H. unfold modified_secant_body in H. split_body H.
  inversion H; subst. eapply well_logged_snoc; exact HI.
Qed.

End Logging.

Section Returns.

Variables (f df g : Q -> Q) (tol delta : Q) (max_iter : Z).

Lemma bisection_returns (a b : Q) (r : run_result) :
  value (bisection f a b tol max_iter) = Returned r ->
  r = nothing \/ well_logged (bisection_passes f a b tol max_iter) r.
Proof.
  unfold bisection, bisection_passes.
  destruct (Py.ge (f a * f b) 0); simpl.
  - intro H. inversion H. now left.
  - intro H. right.
    refine (fall_through_rule _ _ bracket_logged well_logged
              _ _ _ _ _ _ _ H).
    + intros k s s'. apply bisection_body_continue.
    + intros k s r'. apply bisection_body_return.
    + apply bracket_return_logged.
    + exact logged_init.
Qed.

Lemma regula_falsi_returns (a b : Q) (r : run_result) :
  value (regula_falsi f a b tol max_iter) = Returned r ->
  r = nothing \/ well_logged (regula_falsi_passes f a b tol max_iter) r.
Proof.
  unfold regula_falsi, regula_falsi_passes.
  destruct (Py.ge (f a * f b) 0); simpl.
  - intro H. inversion H. now left.
  - intro H. right.
    refine (fall_through_rule _ _ bracket_logged well_logged
              _ _ _ _ _ _ _ H).
    + intros k s s'. apply regula_falsi_body_continue.
    + intros k s r'. apply regula_falsi_body_return.
    + apply bracket_return_logged.
    + exact logged_init.
Qed.

Lemma secant_returns (x0 x1 : Q) (r : run_result) :
  value (secant f x0 x1 tol max_iter) = Returned r ->
  well_logged (secant_passes f x0 x1 tol max_iter) r.
Proof.
  unfold secant, secant_passes. simpl. intro H.
  refine (fall_through_rule _ _ secant_logged well_logged
            _ _ _ _ _ _ _ H).
  - intros k s s'. apply secant_body_continue.
  - intros k s r'. apply secant_body_return.
  - apply secant_return_logged.
  - exact logged_init.
Qed.

Lemma newton_raphson_returns (x0 : Q) (r : run_result) :
  value (newton_raphson f df x0 tol max_iter) = Returned r ->
  well_logged (newton_raphson_passes f df x0 tol max_iter) r.
Proof.
  unfold newton_raphson, newton_raphson_passes. simpl. intro H.
  refine (fall_through_rule _ _ point_logged well_logged
            _ _ _ _ _ _ _ H).
  - intros k s s'. apply newton_raphson_body_continue.
  - intros k s r'. apply newton_raphson_body_return.
  - apply point_return_logged.
  - exact logged_init.
Qed.

Lemma fixed_point_iteration_returns (x0 : Q) (r : run_result) :
  value (fixed_point_iteration g x0 tol max_iter) = Returned r ->
  well_logged (fixed_point_iteration_passes g x0 tol max_iter) r.
Proof.
  unfold fixed_point_iteration, fixed_point_iteration_passes. simpl.
  intro H.
  refine (fall_through_rule _ _ point_logged well_logged
            _ _ _ _ _ _ _ H).
  - intros k s s'. apply fixed_point_iteration_body_continue.
  - intros k s r'. apply fixed_point_iteration_body_return.
  - apply point_return_logged.
  - exact logged_init.
Qed.

Lemma modified_secant_returns (x0 : Q) (r : run_result) :
  value (modified_secant f x0 delta tol max_iter) = Returned r ->
  well_logged (modified_secant_passes f x0 delta tol max_iter) r.
Proof.
  unfold modified_secant, modified_secant_passes. simpl. intro H.
  refine (fall_through_rule _ _ point_logged well_logged
            _ _ _ _ _ _ _ H).
  - intros k s s'. apply modified_secant_body_continue.
  - intros k s r'. apply modified_secant_body_return.
  - apply point_return_logged.
  - exact logged_init.
Qed.

End Returns.

Lemma nothing_not_populated : ~ populated nothing.
Proof. intro H. exact H. Qed.

(** ** Rejected brackets *)

(** C1. When [f(a) * f(b) >= 0] (the product may be zero: a root at an
    endpoint), [bisection] and [regula_falsi] enter no pass of their
    loop, whatever [tol] and [max_iter] are: they print their failure
    message and return [(None, None, None)]. *)
Theorem no_bracket_rejected (f : Q -> Q) (a b tol : Q) (max_iter : Z) :
  0 <= f a * f b ->
  (bisection f a b tol max_iter
   = Eff [Text "Bisection method fails."] (Returned (None, None, None))
   /\ bisection_passes f a b tol max_iter = O)
  /\ (regula_falsi f a b tol max_iter
      = Eff [Text "Regula Falsi method fails."]
            (Returned (None, None, None))
      /\ regula_falsi_passes f a b tol max_iter = O).
Proof.
  intro H. apply ge_true in H.
  unfold bisection, bisection_passes, regula_falsi, regula_falsi_passes.
  rewrite H. repeat split.
Qed.

(** The boundary case: [f(x) = x^2 - 1] on [[1, 3]] has a root at the
    endpoint [a], and is rejected. *)
Lemma no_bracket_rejected_witness :
  let f := fun x : Q => x * x - 1 in
  f 1 * f 3 == 0
  /\ bisection f 1 3 (1 # 1000000) 100
     = Eff [Text "Bisection method fails."] (Returned (None, None, None))
  /\ regula_falsi f 1 3 (1 # 1000000) 100
     = Eff [Text "Regula Falsi method fails."]
           (Returned (None, None, None)).
Proof.
  intro f.
  assert (H : 0 <= f 1 * f 3) by (vm_compute; discriminate).
  split; [reflexivity|].
  split;
    [exact (proj1 (proj1 (no_bracket_rejected f 1 3 (1 # 1000000) 100 H)))
    |exact (proj1 (proj2 (no_bracket_rejected f 1 3 (1 # 1000000) 100 H)))].
Defined.

(** ** All or nothing *)

(** C2. Whenever one of the six methods returns, the triple it returns
    is either full (root, error and log all present) or
    [(None, None, None)]; no call returns a partly filled triple. *)
Theorem result_all_or_nothing :
  (forall f a b tol max_iter r,
      value (bisection f a b tol max_iter) = Returned r ->
      populated r \/ r = (None, None, None))
  /\ (forall f a b tol max_iter r,
         value (regula_falsi f a b tol max_iter) = Returned r ->
         populated r \/ r = (None, None, None))
  /\ (forall f x0 x1 tol max_iter r,
         value (secant f x0 x1 tol max_iter) = Returned r ->
         populated r \/ r = (None, None, None))
  /\ (forall f df x0 tol max_iter r,
         value (newton_raphson f df x0 tol max_iter) = Returned r ->
         populated r \/ r = (None, None, None))
  /\ (forall g x0 tol max_iter r,
         value (fixed_point_iteration g x0 tol max_iter) = Returned r ->
         populated r \/ r = (None, None, None))
  /\ (forall f x0 delta tol max_iter r,
         value (modified_secant f x0 delta tol max_iter) = Returned r ->
         populated r \/ r = (None, None, None)).
Proof.
  repeat split; intros.
  - destruct (bisection_returns _ _ _ _ _ _ H) as [->|Hw];
      [now right|left; exact (well_logged_populated _ _ Hw)].
  - destruct (regula_falsi_returns _ _ _ _ _ _ H) as [->|Hw];
      [now right|left; exact (well_logged_populated _ _ Hw)].
  - left. exact (well_logged_populated _ _ (secant_returns _ _ _ _ _ _ H)).
  - left.
    exact (well_logged_populated _ _
             (newton_raphson_returns _ _ _ _ _ _ H)).
  - left.
    exact (well_logged_populated _ _
             (fixed_point_iteration_returns _ _ _ _ _ H)).
  - left.
    exact (well_logged_populated _ _
             (modified_secant_returns _ _ _ _ _ _ H)).
Qed.

(** Both kinds of triple occur: [bisection] on [x^2 - 2] returns a full
    one over [[1, 2]] and the empty one over [[2, 3]], where there is no
    sign change. *)
Lemma result_all_or_nothing_witness :
  (populated (Some (3 # 2), Some (1 # 2),
              Some [Iteration 1 (3 # 2) (1 # 4) 1])
   \/ (Some (3 # 2), Some (1 # 2), Some [Iteration 1 (3 # 2) (1 # 4) 1])
      = (None, None, None))
  /\ (populated (None, None, None)
      \/ (None, None, None) = ((None, None, None) : run_result)).
Proof.
  split.
  - apply (proj1 result_all_or_nothing
                 square_minus_two 1 2 (1 # 1000000) 1%Z).
    reflexivity.
  - apply (proj1 result_all_or_nothing
                 square_minus_two 2 3 (1 # 1000000) 1%Z).
    reflexivity.
Defined.

(** ** The log and the passes *)

(** C3. Whenever one of the six methods returns a full triple, the log
    has as many entries as passes of the loop were entered, and the
    estimate of its last entry is the returned root; this holds for a
    converged result and for one returned on exhaustion alike. *)
Theorem log_length_and_last_entry :
  (forall f a b tol max_iter r,
      value (bisection f a b tol max_iter) = Returned r -> populated r ->
      well_logged (bisection_passes f a b tol max_iter) r)
  /\ (forall f a b tol max_iter r,
         value (regula_falsi f a b tol max_iter) = Returned r ->
         populated r ->
         well_logged (regula_falsi_passes f a b tol max_iter) r)
  /\ (forall f x0 x1 tol max_iter r,
         value (secant f x0 x1 tol max_iter) = Returned r ->
         populated r ->
         well_logged (secant_passes f x0 x1 tol max_iter) r)
  /\ (forall f df x0 tol max_iter r,
         value (newton_raphson f df x0 tol max_iter) = Returned r ->
         populated r ->
         well_logged (newton_raphson_passes f df x0 tol max_iter) r)
  /\ (forall g x0 tol max_iter r,
         value (fixed_point_iteration g x0 tol max_iter) = Returned r ->
         populated r ->
         well_logged (fixed_point_iteration_passes g x0 tol max_iter) r)
  /\ (forall f x0 delta tol max_iter r,
         value (modified_secant f x0 delta tol max_iter) = Returned r ->
         populated r ->
         well_logged (modified_secant_passes f x0 delta tol max_iter) r).
Proof.
  repeat split; intros until r; intros H Hp.
  - destruct (bisection_returns _ _ _ _ _ _ H) as [->|Hw];
      [destruct (nothing_not_populated Hp)|exact Hw].
  - destruct (regula_falsi_returns _ _ _ _ _ _ H) as [->|Hw];
      [destruct (nothing_not_populated Hp)|exact Hw].
  - exact (secant_returns _ _ _ _ _ _ H).
  - exact (newton_raphson_returns _ _ _ _ _ _ H).
  - exact (fixed_point_iteration_returns _ _ _ _ _ H).
  - exact (modified_secant_returns _ _ _ _ _ _ H).
Qed.

(** Newton-Raphson on [x^2 - 2] from [x0 = 1], stopped by [max_iter = 2]
    before the tolerance is met: two passes, two entries, and the last
    entry holds the returned estimate [17/12]. *)
Lemma log_length_and_last_entry_witness :
  let r := (Some (68 # 48), Some (0 # 2304),
            Some [Iteration 1 (3 # 2) (1 # 4) (1 # 2);
                  Iteration 2 (68 # 48) (16 # 2304) (8 # 96)]) in
  value (newton_raphson square_minus_two (fun x => 2 * x) 1
                        (1 # 1000000) 2) = Returned r
  /\ newton_raphson_passes square_minus_two (fun x => 2 * x) 1
                           (1 # 1000000) 2 = 2%nat
  /\ well_logged 2 r.
Proof.
  intro r.
  assert (H : value (newton_raphson square_minus_two (fun x => 2 * x) 1
                                    (1 # 1000000) 2) = Returned r)
    by reflexivity.
  split; [exact H|]. split; [reflexivity|].
  exact (proj1 (proj2 (proj2 (proj2 log_length_and_last_entry)))
           square_minus_two (fun x => 2 * x) 1 (1 # 1000000) 2%Z r H I).
Defined.

(** ** Bisection in closed form *)

Section BisectionClosedForm.

Variables (f : Q -> Q) (a b tol : Q).

Lemma bisection_log_S (k : nat) :
  bisection_log f a b (Datatypes.S k)
  = bisection_log f a b k ++ [bisection_entry f a b k].
Proof.
  unfold bisection_log. rewrite seq_S, map_app. reflexivity.
Qed.

Lemma bisection_log_length (k : nat) :
  List.length (bisection_log f a b k) = k.
Proof. unfold bisection_log. now rewrite length_map, length_seq. Qed.

Lemma bisection_frame_0 : bisection_frame f a b 0 = bracket_init a b.
Proof. reflexivity. Qed.

Lemma bisection_body_frame (k : nat) :
  bisection_body f tol (Z.of_nat k) (bisection_frame f a b k)
  = if stops_at f a b tol k then Return (bisection_hit f a b k)
    else Continue (bisection_frame f a b (Datatypes.S k)).
Proof.
  unfold bisection_body, bracket_step, stops_at, bisection_hit,
    bisection_frame.
  cbn [br_a br_b br_c br_iterations].
  rewrite bisection_log_S.
  change (bracket_after f a b (Datatypes.S k))
    with (halve f (bracket_after f a b k)).
  unfold halve, bisection_entry, midpoint, width.
  destruct (Py.lt (Qabs _) tol); [reflexivity|].
  destruct (Py.lt _ 0); reflexivity.
Qed.

(** As long as no pass meets the stopping rule the loop runs on, and
    the frame is the closed form. *)
Lemma bisection_loop_from (n k0 : nat) :
  (forall k, (k0 <= k < k0 + n)%nat -> stops_at f a b tol k = false) ->
  for_range (bisection_body f tol) n (Z.of_nat k0)
            (bisection_frame f a b k0)
  = Exhausted (bisection_frame f a b (k0 + n)).
Proof.
  revert k0. induction n as [|n IH]; intros k0 Hno.
  - simpl. now rewrite Nat.add_0_r.
  - cbn [for_range]. rewrite bisection_body_frame.
    rewrite (Hno k0) by lia.
    replace (Z.of_nat k0 + 1)%Z with (Z.of_nat (Datatypes.S k0)) by lia.
    rewrite IH by (intros k Hk; apply Hno; lia).
    now replace (Datatypes.S k0 + n)%nat with (k0 + Datatypes.S n)%nat
      by lia.
Qed.

Lemma bisection_loop_exhausted (n : nat) :
  (forall k, (k < n)%nat -> stops_at f a b tol k = false) ->
  for_range (bisection_body f tol) n 0%Z (bracket_init a b)
  = Exhausted (bisection_frame f a b n).
Proof.
  intro Hno.
  exact (bisection_loop_from n O (fun k Hk => Hno k (proj2 Hk))).
Qed.

(** The first pass that meets the stopping rule returns. *)
Lemma bisection_loop_hit (n k : nat) :
  (k < n)%nat ->
  (forall j, (j < k)%nat -> stops_at f a b tol j = false) ->
  stops_at f a b tol k = true ->
  for_range (bisection_body f tol) n 0%Z (bracket_init a b)
  = Broke (bisection_hit f a b k).
Proof.
  intros Hk Hno Hstop.
  replace n with (k + Datatypes.S (n - Datatypes.S k))%nat by lia.
  rewrite for_range_app, (bisection_loop_exhausted k Hno).
  cbn [for_range]. change (0 + Z.of_nat k)%Z with (Z.of_nat k).
  now rewrite bisection_body_frame, Hstop.
Qed.

(** Either no pass below [n] stops, or there is a first one that does. *)
Lemma first_stop (n : nat) :
  (forall k, (k < n)%nat -> stops_at f a b tol k = false)
  \/ (exists k, (k < n)%nat /\ stops_at f a b tol k = true
                /\ forall j, (j < k)%nat -> stops_at f a b tol j = false).
Proof.
  induction n as [|n [IH|(k & Hk & Hs & Hno)]].
  - left. intros k Hk. lia.
  - destruct (stops_at f a b tol n) eqn:E.
    + right. exists n. repeat split; [lia|exact E|exact IH].
    + left. intros k Hk.
      destruct (Nat.eq_dec k n) as [->|Hne]; [exact E|apply IH; lia].
  - right. exists k. repeat split; [lia|exact Hs|exact Hno].
Qed.

(** The loop of [bisection] never raises: it is exhausted in the closed
    form, or broken by its first stopping pass. *)
Lemma bisection_loop_cases (n : nat) :
  (for_range (bisection_body f tol) n 0%Z (bracket_init a b)
   = Exhausted (bisection_frame f a b n)
   /\ forall k, (k < n)%nat -> stops_at f a b tol k = false)
  \/ (exists k, (k < n)%nat
                /\ for_range (bisection_body f tol) n 0%Z
                             (bracket_init a b)
                   = Broke (bisection_hit f a b k)
                /\ stops_at f a b tol k = true
                /\ forall j, (j < k)%nat -> stops_at f a b tol j = false).
Proof.
  destruct (first_stop n) as [Hno|(k & Hk & Hs & Hno)].
  - left. split; [now apply bisection_loop_exhausted|exact Hno].
  - right. exists k. repeat split; try assumption.
    now apply bisection_loop_hit.
Qed.

End BisectionClosedForm.

(** What a returning call of [bisection] on a valid bracket returns:
    the closed-form log of some pass count between 1 and [max_iter]. *)
Lemma bisection_result_log (f : Q -> Q) (a b tol : Q) (max_iter : Z)
      (root err : Q) (log : list iteration) :
  value (bisection f a b tol max_iter)
  = Returned (Some root, Some err, Some log) ->
  exists k, (1 <= k <= Z.to_nat max_iter)%nat
            /\ log = bisection_log f a b k.
Proof.
  unfold bisection. destruct (Py.ge (f a * f b) 0); [discriminate|].
  simpl.
  destruct (bisection_loop_cases f a b tol (Z.to_nat max_iter))
    as [[-> _]|(k & Hk & -> & _)]; simpl.
  - unfold bracket_return, bisection_frame. cbn [br_c].
    destruct (Z.to_nat max_iter) as [|n]; [discriminate|].
    intro H. inversion H. exists (Datatypes.S n). split; [lia|reflexivity].
  - unfold bisection_hit. intro H. inversion H.
    exists (Datatypes.S k). split; [lia|reflexivity].
Qed.

(** ** Exhaustion *)

(** C4. On a valid bracket and with [max_iter >= 1], when no pass of
    [bisection] meets [abs(f(c)) < tol], the call still returns a full
    triple: the last midpoint computed, the width of the bracket as it
    stands after the last replacement, and a log of exactly [max_iter]
    entries.  In particular [x^2 - 2] on [[1, 2]] with [max_iter = 1]
    returns the estimate [3/2], which does not meet the tolerance, with
    a log of one entry. *)
Theorem bisection_exhausted_returns :
  (forall (f : Q -> Q) (a b tol : Q) (max_iter : Z),
      f a * f b < 0 -> (1 <= max_iter)%Z ->
      (forall k, (k < Z.to_nat max_iter)%nat ->
                 tol <= Qabs (f (midpoint (bracket_after f a b k)))) ->
      let n := Z.to_nat max_iter in
      bisection f a b tol max_iter
      = Eff [] (Returned
                  (Some (midpoint (bracket_after f a b (n - 1))),
                   Some (width (bracket_after f a b n)),
                   Some (bisection_log f a b n)))
      /\ Z.of_nat (List.length (bisection_log f a b n)) = max_iter)
  /\ (bisection square_minus_two 1 2 (1 # 1000000) 1
      = Eff [] (Returned (Some (3 # 2), Some (1 # 2),
                          Some [Iteration 1 (3 # 2) (1 # 4) 1]))
      /\ ~ Qabs (square_minus_two (3 # 2)) < 1 # 1000000).
Proof.
  split.
  - intros f a b tol max_iter Hbr Hmax Hno n.
    split.
    + unfold bisection. apply ge_false in Hbr. rewrite Hbr.
      rewrite (bisection_loop_exhausted f a b tol (Z.to_nat max_iter))
        by (intros k Hk; apply lt_false; now apply Hno).
      fold n. unfold of_outcome, fall_through, bracket_return,
        bisection_frame.
      cbn [br_a br_b br_c br_iterations].
      assert (Hn : (1 <= n)%nat) by (unfold n; lia).
      destruct n as [|m]; [lia|].
      now replace (Datatypes.S m - 1)%nat with m by lia.
    + rewrite bisection_log_length. unfold n. lia.
  - split; [reflexivity|].
    vm_compute. discriminate.
Qed.

Lemma bisection_exhausted_returns_witness :
  bisection square_minus_two 1 2 (1 # 1000000) 1
  = Eff [] (Returned
              (Some (midpoint (bracket_after square_minus_two 1 2 0)),
               Some (width (bracket_after square_minus_two 1 2 1)),
               Some (bisection_log square_minus_two 1 2 1)))
  /\ Z.of_nat (List.length (bisection_log square_minus_two 1 2 1)) = 1%Z.
Proof.
  apply (proj1 bisection_exhausted_returns
               square_minus_two 1 2 (1 # 1000000) 1%Z).
  - reflexivity.
  - lia.
  - intros k Hk. change (Z.to_nat 1) with 1%nat in Hk.
    assert (k = O) by lia. subst k.
    vm_compute. discriminate.
Defined.

(** ** Halving *)

Lemma halve_width (f : Q -> Q) (ab : Q * Q) :
  width (halve f ab) == width ab / 2.
Proof.
  destruct ab as [a b]. unfold halve, width. cbn [fst snd].
  destruct (Py.lt _ 0); cbn [fst snd].
  - assert (E : (a + b) / 2 - a == (b - a) * (1 # 2)) by field.
    rewrite E, Qabs_Qmult. reflexivity.
  - assert (E : b - (a + b) / 2 == (b - a) * (1 # 2)) by field.
    rewrite E, Qabs_Qmult. reflexivity.
Qed.

(** C5. In every log [bisection] returns, the bracket width recorded in
    an entry after the first is half the width recorded in the entry
    just before it (equality of rationals). *)
Theorem bisection_width_halves (f : Q -> Q) (a b tol : Q) (max_iter : Z)
        (root err : Q) (log : list iteration) (j : nat)
        (r1 r2 : iteration) :
  f a * f b < 0 ->
  value (bisection f a b tol max_iter)
  = Returned (Some root, Some err, Some log) ->
  nth_error log j = Some r1 ->
  nth_error log (Datatypes.S j) = Some r2 ->
  error r2 == error r1 / 2.
Proof.
  intros _ H H1 H2.
  destruct (bisection_result_log _ _ _ _ _ _ _ _ H) as (k & _ & ->).
  unfold bisection_log in H1, H2.
  rewrite nth_error_map in H1, H2.
  destruct (nth_error (seq 0 k) j) as [j1|] eqn:E1; [|discriminate].
  destruct (nth_error (seq 0 k) (Datatypes.S j)) as [j2|] eqn:E2;
    [|discriminate].
  assert (Hj : (j < k)%nat)
    by (rewrite <- (length_seq k 0); apply nth_error_Some; congruence).
  assert (Hj' : (Datatypes.S j < k)%nat)
    by (rewrite <- (length_seq k 0); apply nth_error_Some; congruence).
  rewrite nth_error_seq in E1, E2.
  destruct (Nat.ltb_spec j k); [|lia].
  destruct (Nat.ltb_spec (Datatypes.S j) k); [|lia].
  injection E1 as <-. injection E2 as <-.
  cbn [option_map Nat.add] in H1, H2.
  injection H1 as <-. injection H2 as <-.
  unfold bisection_entry. cbn [error].
  change (bracket_after f a b (Datatypes.S j))
    with (halve f (bracket_after f a b j)).
  apply halve_width.
Qed.

Lemma bisection_width_halves_witness :
  error (Iteration 2 (1 # 4) (-4 # 4) (1 # 2))
  == error (Iteration 1 (1 # 2) (2 # 2) 1) / 2.
Proof.
  apply (bisection_width_halves steep 0 1 (1 # 2) 100
           0x0.6%xQ (2 # 8)
           [Iteration 1 (1 # 2) (2 # 2) 1;
            Iteration 2 (1 # 4) (-4 # 4) (1 # 2);
            Iteration 3 0x0.6%xQ 0x0.0%xQ (2 # 8)]
           O).
  - reflexivity.
  - reflexivity.
  - reflexivity.
  - reflexivity.
Defined.

(** ** The iteration bound *)

Lemma steep_continuous : continuous steep.
Proof.
  intros x eps Heps. exists (eps * (1 # 8)). split; [lra|].
  intros y Hy. unfold steep.
  assert (E : 8 * y - 3 - (8 * x - 3) == 8 * (y - x)) by ring.
  rewrite E, Qabs_Qmult. change (Qabs 8) with 8.
  lra.
Qed.

Lemma iteration_bound_spec (a b tol : Q) :
  0 < tol ->
  b - a <= tol * inject_Z (2 ^ iteration_bound a b tol).
Proof.
  intro Htol. unfold iteration_bound.
  set (q := (b - a) / tol).
  assert (Hq : q <= inject_Z (2 ^ Z.log2_up (Qceiling q))).
  { apply Qle_trans with (inject_Z (Qceiling q)); [apply Qle_ceiling|].
    rewrite <- Zle_Qle.
    destruct (Z_lt_le_dec 1 (Qceiling q)) as [H1|H1].
    - apply (Z.log2_up_spec _ H1).
    - rewrite Z.log2_up_eqn0 by exact H1. simpl. exact H1. }
  assert (E : b - a == q * tol) by (unfold q; field; lra).
  rewrite E, (Qmult_comm tol).
  apply Qmult_le_compat_r; [exact Hq|lra].
Qed.

Lemma pow2_succ (k : nat) :
  inject_Z (2 ^ Z.of_nat (Datatypes.S k))
  == 2 * inject_Z (2 ^ Z.of_nat k).
Proof.
  rewrite Nat2Z.inj_succ, Z.pow_succ_r by lia.
  now rewrite inject_Z_mult.
Qed.

Lemma pow2_pos (k : nat) : 0 < inject_Z (2 ^ Z.of_nat k).
Proof.
  change 0 with (inject_Z 0). rewrite <- Zlt_Qlt.
  apply Z.pow_pos_nonneg; lia.
Qed.

(** After [k] replacements the bracket is [2^k] times narrower. *)
Lemma width_after (f : Q -> Q) (a b : Q) (k : nat) :
  width (bracket_after f a b k) * inject_Z (2 ^ Z.of_nat k)
  == Qabs (b - a).
Proof.
  induction k as [|k IH].
  - change (bracket_after f a b 0) with (a, b).
    unfold width. cbn [fst snd].
    change (inject_Z (2 ^ Z.of_nat 0)) with 1. ring.
  - change (bracket_after f a b (Datatypes.S k))
      with (halve f (bracket_after f a b k)).
    rewrite halve_width, pow2_succ, <- IH. field.
Qed.

(** Once [2^n] covers [(b - a) / tol], the bracket after [n]
    replacements is no wider than [tol]. *)
Lemma width_within_tolerance (f : Q -> Q) (a b tol : Q) (n : nat) :
  a <= b -> 0 < tol -> (iteration_bound a b tol <= Z.of_nat n)%Z ->
  width (bracket_after f a b n) <= tol.
Proof.
  intros Hab Htol Hn.
  apply (Qmult_le_r _ _ (inject_Z (2 ^ Z.of_nat n)) (pow2_pos n)).
  rewrite width_after, Qabs_pos by lra.
  apply Qle_trans with (tol * inject_Z (2 ^ iteration_bound a b tol)).
  - now apply iteration_bound_spec.
  - apply Qmult_le_l; [exact Htol|].
    rewrite <- Zle_Qle. apply Z.pow_le_mono_r; [lia|exact Hn].
Qed.

(** C6, as stated, fails: [steep] is continuous and changes sign on
    [[0, 1]]; with [tol = 1/2] the bound [ceil(log2((1 - 0) / tol))] is
    1, yet no pass within the bound meets [abs(f(c)) < tol]: the first
    midpoint [1/2] has residual 1, and the call needs three passes. *)
Lemma bisection_bound_fails :
  continuous steep
  /\ steep 0 * steep 1 < 0
  /\ 0 < 1 # 2
  /\ iteration_bound 0 1 (1 # 2) = 1%Z
  /\ ~ (exists k, (k < Z.to_nat (iteration_bound 0 1 (1 # 2)))%nat
                  /\ stops_at steep 0 1 (1 # 2) k = true)
  /\ bisection_passes steep 0 1 (1 # 2) 100 = 3%nat.
Proof.
  split; [exact steep_continuous|].
  split; [reflexivity|]. split; [reflexivity|].
  split; [reflexivity|]. split; [|reflexivity].
  intros (k & Hk & Hs).
  change (Z.to_nat (iteration_bound 0 1 (1 # 2))) with 1%nat in Hk.
  assert (k = O) by lia. subst k. vm_compute in Hs. discriminate.
Qed.

(** C6, amended. In exact arithmetic: on a valid bracket [a <= b] with
    [tol > 0], a call of [bisection] whose [max_iter] is at least 1 and
    at least [ceil(log2((b - a) / tol))] returns a full triple, and
    either the returned estimate meets the stopping rule
    [abs(f(c)) < tol], or all [max_iter] passes were made and the
    returned bracket width is at most [tol].  The bound limits the width
    of the bracket, not the residual. *)
Theorem bisection_bound_on_width (f : Q -> Q) (a b tol : Q)
        (max_iter : Z) :
  f a * f b < 0 -> a <= b -> 0 < tol ->
  (1 <= max_iter)%Z -> (iteration_bound a b tol <= max_iter)%Z ->
  exists root err log,
    bisection f a b tol max_iter
    = Eff [] (Returned (Some root, Some err, Some log))
    /\ (Qabs (f root) < tol
        \/ (Z.of_nat (List.length log) = max_iter /\ err <= tol)).
Proof.
  intros Hbr Hab Htol Hmax Hbound.
  unfold bisection. apply ge_false in Hbr. rewrite Hbr.
  destruct (bisection_loop_cases f a b tol (Z.to_nat max_iter))
    as [[-> _]|(k & Hk & -> & Hs & _)];
    unfold of_outcome, fall_through.
  - unfold bracket_return, bisection_frame.
    cbn [br_a br_b br_c br_iterations].
    destruct (Z.to_nat max_iter) as [|n] eqn:En; [lia|].
    eexists _, _, _. split; [reflexivity|]. right. split.
    + rewrite bisection_log_length. lia.
    + apply width_within_tolerance; try assumption. lia.
  - unfold bisection_hit. eexists _, _, _. split; [reflexivity|].
    left. now apply lt_true.
Qed.

(** With [max_iter = 1], the bound for [steep] on [[0, 1]] and
    [tol = 1/2]: the estimate [1/2] misses the tolerance, the bracket
    returned is [1/2] wide. *)
Lemma bisection_bound_on_width_witness :
  exists root err log,
    bisection steep 0 1 (1 # 2) 1
    = Eff [] (Returned (Some root, Some err, Some log))
    /\ (Qabs (steep root) < 1 # 2
        \/ (Z.of_nat (List.length log) = 1%Z /\ err <= 1 # 2)).
Proof.
  apply (bisection_bound_on_width steep 0 1 (1 # 2) 1%Z).
  - reflexivity.
  - vm_compute. discriminate.
  - reflexivity.
  - lia.
  - vm_compute. discriminate.
Defined.

(** ** Zero denominators *)

(** The frame after [k] completed passes holds [k] log entries. *)
Lemma secant_loop_logged (f : Q -> Q) (tol x0 x1 : Q) (k : nat)
      (st : secant_frame) :
  for_range (secant_body f tol) k 0%Z (secant_init x0 x1) = Exhausted st ->
  List.length (sc_iterations st) = k.
Proof.
  intro H.
  pose proof (for_range_rule (secant_body f tol) secant_logged
                (fun _ _ => True)
                (fun k s s' => secant_body_continue f tol k s s')
                (fun _ _ _ _ _ => I) k O (secant_init x0 x1) logged_init)
    as Hr.
  change (Z.of_nat 0) with 0%Z in Hr. rewrite H in Hr. exact (proj1 Hr).
Qed.

Lemma newton_raphson_loop_logged (f df : Q -> Q) (tol x0 : Q) (k : nat)
      (st : point_frame) :
  for_range (newton_raphson_body f df tol) k 0%Z (point_init x0)
  = Exhausted st ->
  List.length (pt_iterations st) = k.
Proof.
  intro H.
  pose proof (for_range_rule (newton_raphson_body f df tol) point_logged
                (fun _ _ => True)
                (fun k s s' => newton_raphson_body_continue f df tol k s s')
                (fun _ _ _ _ _ => I) k O (point_init x0) logged_init)
    as Hr.
  change (Z.of_nat 0) with 0%Z in Hr. rewrite H in Hr. exact (proj1 Hr).
Qed.

Lemma modified_secant_loop_logged (f : Q -> Q) (delta tol x0 : Q)
      (k : nat) (st : point_frame) :
  for_range (modified_secant_body f delta tol) k 0%Z (point_init x0)
  = Exhausted st ->
  List.length (pt_iterations st) = k.
Proof.
  intro H.
  pose proof (for_range_rule (modified_secant_body f delta tol)
                point_logged (fun _ _ => True)
                (fun k s s' =>
                   modified_secant_body_continue f tol delta k s s')
                (fun _ _ _ _ _ => I) k O (point_init x0) logged_init)
    as Hr.
  change (Z.of_nat 0) with 0%Z in Hr. rewrite H in Hr. exact (proj1 Hr).
Qed.

(** A pass whose denominator is zero raises. *)
Lemma secant_body_zero (f : Q -> Q) (tol : Q) (i : Z) (st : secant_frame) :
  f (sc_x1 st) == f (sc_x0 st) ->
  secant_body f tol i st = Raise ZeroDivisionError.
Proof.
  intro H. unfold secant_body. cbv beta zeta.
  rewrite truediv_zero; [reflexivity|]. rewrite H. ring.
Qed.

Lemma newton_raphson_body_zero (f df : Q -> Q) (tol : Q) (i : Z)
      (st : point_frame) :
  df (pt_x0 st) == 0 ->
  newton_raphson_body f df tol i st = Raise ZeroDivisionError.
Proof.
  intro H. unfold newton_raphson_body. cbv beta zeta.
  now rewrite truediv_zero.
Qed.

Lemma modified_secant_body_zero (f : Q -> Q) (delta tol : Q) (i : Z)
      (st : point_frame) :
  f (pt_x0 st + delta * pt_x0 st) - f (pt_x0 st) == 0 ->
  modified_secant_body f delta tol i st = Raise ZeroDivisionError.
Proof.
  intro H. unfold modified_secant_body. cbv beta zeta.
  now rewrite truediv_zero.
Qed.

(** The fault at pass [k + 1] of each open method, as the caller sees
    it. *)
Lemma secant_fault (f : Q -> Q) (x0 x1 tol : Q) (max_iter : Z) (k : nat)
      (st : secant_frame) :
  (k < Z.to_nat max_iter)%nat ->
  for_range (secant_body f tol) k 0%Z (secant_init x0 x1) = Exhausted st ->
  f (sc_x1 st) == f (sc_x0 st) ->
  secant f x0 x1 tol max_iter = Eff [] (Raised ZeroDivisionError)
  /\ secant_passes f x0 x1 tol max_iter = Datatypes.S k.
Proof.
  intros Hk Hrun Hz. unfold secant, secant_passes.
  destruct (for_range_fails_at (secant_body f tol) _ _ _ _ _ Hk Hrun
              (secant_body_zero f tol _ st Hz)) as [-> ->].
  split; reflexivity.
Qed.

Lemma newton_raphson_fault (f df : Q -> Q) (x0 tol : Q) (max_iter : Z)
      (k : nat) (st : point_frame) :
  (k < Z.to_nat max_iter)%nat ->
  for_range (newton_raphson_body f df tol) k 0%Z (point_init x0)
  = Exhausted st ->
  df (pt_x0 st) == 0 ->
  newton_raphson f df x0 tol max_iter = Eff [] (Raised ZeroDivisionError)
  /\ newton_raphson_passes f df x0 tol max_iter = Datatypes.S k.
Proof.
  intros Hk Hrun Hz. unfold newton_raphson, newton_raphson_passes.
  destruct (for_range_fails_at (newton_raphson_body f df tol) _ _ _ _ _
              Hk Hrun (newton_raphson_body_zero f df tol _ st Hz))
    as [-> ->].
  split; reflexivity.
Qed.

Lemma modified_secant_fault (f : Q -> Q) (x0 delta tol : Q)
      (max_iter : Z) (k : nat) (st : point_frame) :
  (k < Z.to_nat max_iter)%nat ->
  for_range (modified_secant_body f delta tol) k 0%Z (point_init x0)
  = Exhausted st ->
  f (pt_x0 st + delta * pt_x0 st) - f (pt_x0 st) == 0 ->
  modified_secant f x0 delta tol max_iter
  = Eff [] (Raised ZeroDivisionError)
  /\ modified_secant_passes f x0 delta tol max_iter = Datatypes.S k.
Proof.
  intros Hk Hrun Hz. unfold modified_secant, modified_secant_passes.
  destruct (for_range_fails_at (modified_secant_body f delta tol)
              _ _ _ _ _ Hk Hrun
              (modified_secant_body_zero f delta tol _ st Hz))
    as [-> ->].
  split; reflexivity.
Qed.

(** C7, amended. In exact arithmetic and for a handle whose values are
    finite Python floats: at whatever pass of [secant] the two current points
    have equal function values, [f(x1) == f(x0)], the call raises
    [ZeroDivisionError] in that very pass: nothing is returned, and the
    exception is what the caller gets. *)
Theorem secant_equal_values_raise (f : Q -> Q) (x0 x1 tol : Q)
        (max_iter : Z) (k : nat) (st : secant_frame) :
  (k < Z.to_nat max_iter)%nat ->
  for_range (secant_body f tol) k 0%Z (secant_init x0 x1) = Exhausted st ->
  f (sc_x1 st) == f (sc_x0 st) ->
  secant f x0 x1 tol max_iter = Eff [] (Raised ZeroDivisionError)
  /\ secant_passes f x0 x1 tol max_iter = Datatypes.S k
  /\ forall r, value (secant f x0 x1 tol max_iter) <> Returned r.
Proof.
  intros Hk Hrun Hz.
  destruct (secant_fault f x0 x1 tol max_iter k st Hk Hrun Hz) as [E Hp].
  repeat split; [exact E|exact Hp|].
  intros r. rewrite E. discriminate.
Qed.

(** The spec's scenario 3: both guesses give the same function value,
    and the first pass raises. *)
Lemma secant_equal_values_raise_witness :
  square 1 == square (-1)
  /\ secant square (-1) 1 (1 # 1000000) 100
     = Eff [] (Raised ZeroDivisionError)
  /\ secant_passes square (-1) 1 (1 # 1000000) 100 = 1%nat
  /\ forall r, value (secant square (-1) 1 (1 # 1000000) 100)
               <> Returned r.
Proof.
  split; [reflexivity|].
  apply (secant_equal_values_raise square (-1) 1 (1 # 1000000) 100%Z O
           (secant_init (-1) 1)).
  - vm_compute. lia.
  - reflexivity.
  - reflexivity.
Defined.

(** The driver has no handler: what the chosen solver raises is what the
    script ends with, and nothing is reported. *)
Lemma main_propagates (args : cli_args) (e : exn) :
  dispatch args = Eff [] (Raised e) -> main args = Eff [] (Raised e).
Proof. unfold main, bind. now intros ->. Qed.

(** On Python floats a zero divisor loses the log: [secant] on
    [square_plus_one] from 0 and 1 completes one pass, which logs one
    entry; the second pass divides by zero.  The call then yields the
    exception alone: no value is returned, so the entry logged is not
    handed to the caller, and the command-line script ends with the
    uncaught exception. *)
Lemma zero_divisor_drops_log :
  for_range (secant_body square_plus_one (1 # 1000000)) 1 0%Z
            (secant_init 0 1)
  = Exhausted (SecantFrame 1 (-1) (Some (-1)) [Iteration 1 (-1) 2 2])
  /\ square_plus_one (-1) - square_plus_one 1 == 0
  /\ secant square_plus_one 0 1 (1 # 1000000) 100
     = Eff [] (Raised ZeroDivisionError)
  /\ (forall r, value (secant square_plus_one 0 1 (1 # 1000000) 100)
                <> Returned r)
  /\ main (CliArgs Secant square_plus_one [0; 1] (1 # 1000000) 100
                   (1 # 1000000) None None)
     = Eff [] (Raised ZeroDivisionError).
Proof.
  split; [reflexivity|]. split; [reflexivity|].
  split; [reflexivity|]. split; [|reflexivity].
  intros r. vm_compute. discriminate.
Qed.

(** C8, amended. In exact arithmetic and for handles whose values are
    finite Python floats: in [secant], [newton_raphson] and [modified_secant],
    a zero denominator at a pass ends the loop by raising
    [ZeroDivisionError] out of the call.  The [k] entries logged by the
    completed passes stay in the abandoned frame: the call returns
    nothing.  The command-line script does not catch the exception; it
    ends with it and prints no report. *)
Theorem zero_divisor_propagates :
  (forall f x0 x1 tol max_iter delta df g k st,
      (k < Z.to_nat max_iter)%nat ->
      for_range (secant_body f tol) k 0%Z (secant_init x0 x1)
      = Exhausted st ->
      f (sc_x1 st) - f (sc_x0 st) == 0 ->
      List.length (sc_iterations st) = k
      /\ secant f x0 x1 tol max_iter = Eff [] (Raised ZeroDivisionError)
      /\ main (CliArgs Secant f [x0; x1] tol max_iter delta df g)
         = Eff [] (Raised ZeroDivisionError))
  /\ (forall f df x0 tol max_iter delta g k st,
         (k < Z.to_nat max_iter)%nat ->
         for_range (newton_raphson_body f df tol) k 0%Z (point_init x0)
         = Exhausted st ->
         df (pt_x0 st) == 0 ->
         List.length (pt_iterations st) = k
         /\ newton_raphson f df x0 tol max_iter
            = Eff [] (Raised ZeroDivisionError)
         /\ main (CliArgs NewtonRaphson f [x0] tol max_iter delta
                          (Some df) g)
            = Eff [] (Raised ZeroDivisionError))
  /\ (forall f x0 delta tol max_iter df g k st,
         (k < Z.to_nat max_iter)%nat ->
         for_range (modified_secant_body f delta tol) k 0%Z
                   (point_init x0)
         = Exhausted st ->
         f (pt_x0 st + delta * pt_x0 st) - f (pt_x0 st) == 0 ->
         List.length (pt_iterations st) = k
         /\ modified_secant f x0 delta tol max_iter
            = Eff [] (Raised ZeroDivisionError)
         /\ main (CliArgs ModifiedSecant f [x0] tol max_iter delta df g)
            = Eff [] (Raised ZeroDivisionError)).
Proof.
  repeat split.
  - now apply (secant_loop_logged f tol x0 x1).
  - apply (secant_fault f x0 x1 tol max_iter k st); try assumption. lra.
  - apply main_propagates. cbn [dispatch arg_method arg_params
      arg_expression arg_tol arg_max_iter].
    apply (secant_fault f x0 x1 tol max_iter k st); try assumption. lra.
  - now apply (newton_raphson_loop_logged f df tol x0).
  - now apply (newton_raphson_fault f df x0 tol max_iter k st).
  - apply main_propagates. cbn [dispatch arg_method arg_params
      arg_expression arg_tol arg_max_iter arg_df].
    now apply (newton_raphson_fault f df x0 tol max_iter k st).
  - now apply (modified_secant_loop_logged f delta tol x0).
  - now apply (modified_secant_fault f x0 delta tol max_iter k st).
  - apply main_propagates. cbn [dispatch arg_method arg_params
      arg_expression arg_tol arg_max_iter arg_delta].
    now apply (modified_secant_fault f x0 delta tol max_iter k st).
Qed.

(** Newton-Raphson on [x^2 - 2] from [x0 = 0], where the derivative
    [2x] vanishes: the first pass raises. *)
Lemma zero_divisor_propagates_witness :
  List.length (pt_iterations (point_init 0)) = O
  /\ newton_raphson square_minus_two (fun x => 2 * x) 0 (1 # 1000000) 100
     = Eff [] (Raised ZeroDivisionError)
  /\ main (CliArgs NewtonRaphson square_minus_two [0] (1 # 1000000) 100
                   (1 # 1000000) (Some (fun x => 2 * x)) None)
     = Eff [] (Raised ZeroDivisionError).
Proof.
  apply (proj1 (proj2 zero_divisor_propagates)
               square_minus_two (fun x => 2 * x) 0 (1 # 1000000) 100%Z
               (1 # 1000000) None O (point_init 0)).
  - vm_compute. lia.
  - reflexivity.
  - reflexivity.
Defined.

(** C9, amended. In exact arithmetic, for a handle [f] whose values are
    finite Python floats and which gives equal results on equal numbers, and
    for [max_iter >= 1]: [modified_secant] called with [x0 == 0] has a
    vanishing perturbation [delta * x0], a denominator
    [f(x0 + delta * x0) - f(x0)] equal to zero, and raises
    [ZeroDivisionError] in its first pass, returning nothing. *)
Theorem modified_secant_zero_guess (f : Q -> Q) (x0 delta tol : Q)
        (max_iter : Z) :
  Proper (Qeq ==> Qeq) f -> x0 == 0 -> (1 <= max_iter)%Z ->
  delta * x0 == 0
  /\ f (x0 + delta * x0) - f x0 == 0
  /\ modified_secant f x0 delta tol max_iter
     = Eff [] (Raised ZeroDivisionError)
  /\ modified_secant_passes f x0 delta tol max_iter = 1%nat
  /\ forall r, value (modified_secant f x0 delta tol max_iter)
               <> Returned r.
Proof.
  intros Hf Hx Hmax.
  assert (Hd : delta * x0 == 0) by (rewrite Hx; ring).
  assert (Hz : f (x0 + delta * x0) - f x0 == 0).
  { assert (E : x0 + delta * x0 == x0) by (rewrite Hd; ring).
    rewrite (Hf _ _ E). ring. }
  destruct (modified_secant_fault f x0 delta tol max_iter O
              (point_init x0)) as [E Hp];
    [lia|reflexivity|exact Hz|].
  repeat split; try assumption.
  intros r. rewrite E. discriminate.
Qed.

Lemma square_minus_two_proper : Proper (Qeq ==> Qeq) square_minus_two.
Proof. intros x y E. unfold square_minus_two. now rewrite E. Qed.

Lemma modified_secant_zero_guess_witness :
  modified_secant square_minus_two 0 (1 # 1000000) (1 # 1000000) 100
  = Eff [] (Raised ZeroDivisionError)
  /\ modified_secant_passes square_minus_two 0 (1 # 1000000)
                            (1 # 1000000) 100 = 1%nat.
Proof.
  destruct (modified_secant_zero_guess square_minus_two 0 (1 # 1000000)
              (1 # 1000000) 100%Z square_minus_two_proper)
    as (_ & _ & E & Hp & _).
  - reflexivity.
  - lia.
  - split; [exact E|exact Hp].
Defined.

(** ** The bracket invariant *)

(** Signs: with [A * B < 0], an [f(c)] that is not zero and does not
    change sign against [A] changes sign against [B]. *)
Lemma opposite_sign_kept (A B C tol : Q) :
  A * B < 0 -> 0 <= A * C -> 0 < tol -> tol <= Qabs C -> C * B < 0.
Proof.
  intros H1 H2 H4 H3.
  assert (HC : ~ C == 0).
  { intro E. rewrite E in H3. change (Qabs 0) with 0 in H3. lra. }
  destruct (Qlt_le_dec A 0), (Qlt_le_dec C 0), (Qlt_le_dec B 0); nra.
Qed.

Lemma bracketed_denominator (f : Q -> Q) (st : bracket_frame) :
  bracketed f st -> ~ f (br_b st) - f (br_a st) == 0.
Proof.
  unfold bracketed. intros H E.
  assert (E' : f (br_b st) == f (br_a st)) by lra.
  rewrite E' in H. nra.
Qed.

Section BracketInvariant.

Variables (f : Q -> Q) (tol : Q).
Hypothesis tol_pos : 0 < tol.

(** Whatever point [c] a pass picks, replacing an endpoint keeps the
    sign change. *)
Lemma bracket_step_bracketed (i : Z) (st st' : bracket_frame) (c : Q) :
  bracketed f st -> bracket_step f tol i st c = Continue st' ->
  bracketed f st'.
Proof.
  unfold bracketed. intros Hbr H. unfold bracket_step in H.
  split_body H; inversion H; subst; clear H; cbn [br_a br_b].
  - now apply lt_true.
  - apply lt_false in Etest, Etest0.
    exact (opposite_sign_kept _ _ _ tol Hbr Etest0 tol_pos Etest).
Qed.

Lemma bisection_body_bracketed (k : nat) (st st' : bracket_frame) :
  bracketed f st -> bisection_body f tol (Z.of_nat k) st = Continue st' ->
  bracketed f st'.
Proof. unfold bisection_body. apply bracket_step_bracketed. Qed.

Lemma regula_falsi_body_bracketed (k : nat) (st st' : bracket_frame) :
  bracketed f st ->
  regula_falsi_body f tol (Z.of_nat k) st = Continue st' ->
  bracketed f st'.
Proof.
  intros Hbr H. unfold regula_falsi_body in H. cbv beta zeta in H.
  destruct (Py.truediv _ _); [|discriminate H].
  exact (bracket_step_bracketed _ _ _ _ Hbr H).
Qed.

Lemma bracket_step_no_raise (i : Z) (st : bracket_frame) (c : Q)
      (e : exn) :
  bracket_step f tol i st c <> Raise e.
Proof.
  unfold bracket_step.
  destruct (Py.lt (Qabs (f c)) tol); [discriminate|].
  destruct (Py.lt _ 0); discriminate.
Qed.

Lemma regula_falsi_body_no_raise (k : nat) (st : bracket_frame)
      (e : exn) :
  bracketed f st -> regula_falsi_body f tol (Z.of_nat k) st <> Raise e.
Proof.
  intros Hbr. unfold regula_falsi_body. cbv beta zeta.
  rewrite truediv_nonzero by exact (bracketed_denominator f st Hbr).
  apply bracket_step_no_raise.
Qed.

End BracketInvariant.

(** C10. On a valid bracket with [tol > 0], whenever [bisection] or
    [regula_falsi] stands at the start of a pass (after any number [n]
    of completed passes), its endpoints still satisfy
    [f(a) * f(b) < 0].  Hence the denominator [f(b) - f(a)] of
    [regula_falsi] is not zero at any pass, its loop does not fail, and
    the call does not raise [ZeroDivisionError]. *)
Theorem bracket_invariant (f : Q -> Q) (a b tol : Q) :
  f a * f b < 0 -> 0 < tol ->
  (forall n st,
      for_range (bisection_body f tol) n 0%Z (bracket_init a b)
      = Exhausted st ->
      f (br_a st) * f (br_b st) < 0)
  /\ (forall n st,
         for_range (regula_falsi_body f tol) n 0%Z (bracket_init a b)
         = Exhausted st ->
         f (br_a st) * f (br_b st) < 0
         /\ ~ f (br_b st) - f (br_a st) == 0)
  /\ (forall n e,
         for_range (regula_falsi_body f tol) n 0%Z (bracket_init a b)
         <> Failed e)
  /\ (forall max_iter,
         value (regula_falsi f a b tol max_iter)
         <> Raised ZeroDivisionError).
Proof.
  intros Hbr Htol.
  assert (H0 : bracketed f (bracket_init a b)) by exact Hbr.
  assert (Hsafe : forall n e,
             for_range (regula_falsi_body f tol) n 0%Z (bracket_init a b)
             <> Failed e).
  { intros n e.
    exact (for_range_safe (regula_falsi_body f tol)
             (fun _ st => bracketed f st)
             (fun k s s' => regula_falsi_body_bracketed f tol Htol k s s')
             (fun k s e' => regula_falsi_body_no_raise f tol k s e')
             n O (bracket_init a b) e H0). }
  repeat split.
  - intros n st H.
    pose proof (for_range_rule (bisection_body f tol)
                  (fun _ st => bracketed f st) (fun _ _ => True)
                  (fun k s s' => bisection_body_bracketed f tol Htol k s s')
                  (fun _ _ _ _ _ => I) n O (bracket_init a b) H0) as Hr.
    change (Z.of_nat 0) with 0%Z in Hr. rewrite H in Hr. exact Hr.
  - pose proof (for_range_rule (regula_falsi_body f tol)
                  (fun _ st => bracketed f st) (fun _ _ => True)
                  (fun k s s' =>
                     regula_falsi_body_bracketed f tol Htol k s s')
                  (fun _ _ _ _ _ => I) n O (bracket_init a b) H0) as Hr.
    change (Z.of_nat 0) with 0%Z in Hr. rewrite H in Hr. exact Hr.
  - apply bracketed_denominator.
    pose proof (for_range_rule (regula_falsi_body f tol)
                  (fun _ st => bracketed f st) (fun _ _ => True)
                  (fun k s s' =>
                     regula_falsi_body_bracketed f tol Htol k s s')
                  (fun _ _ _ _ _ => I) n O (bracket_init a b) H0) as Hr.
    change (Z.of_nat 0) with 0%Z in Hr. rewrite H in Hr. exact Hr.
  - exact Hsafe.
  - intros max_iter. unfold regula_falsi.
    apply ge_false in Hbr. rewrite Hbr. simpl.
    destruct (for_range (regula_falsi_body f tol) (Z.to_nat max_iter) 0%Z
                        (bracket_init a b)) as [st|r|e] eqn:E; simpl.
    + unfold bracket_return. destruct (br_c st); discriminate.
    + discriminate.
    + destruct (Hsafe _ _ E).
Qed.

(** Regula falsi on [x^2 - 2] over [[1, 2]]: after one pass the bracket
    is [[4/3, 2]], and it still holds a sign change. *)
Lemma bracket_invariant_witness :
  let st := BracketFrame (4 # 3) 2 (Some (4 # 3))
                         [Iteration 1 (4 # 3) (-2 # 9) 1] in
  for_range (regula_falsi_body square_minus_two (1 # 1000000)) 1 0%Z
            (bracket_init 1 2) = Exhausted st
  /\ square_minus_two (br_a st) * square_minus_two (br_b st) < 0
  /\ ~ square_minus_two (br_b st) - square_minus_two (br_a st) == 0.
Proof.
  intro st.
  assert (H1 : square_minus_two 1 * square_minus_two 2 < 0)
    by reflexivity.
  assert (H2 : 0 < 1 # 1000000) by reflexivity.
  assert (Hrun : for_range (regula_falsi_body square_minus_two
                                              (1 # 1000000)) 1 0%Z
                           (bracket_init 1 2) = Exhausted st)
    by reflexivity.
  split; [exact Hrun|].
  exact (proj1 (proj2 (bracket_invariant square_minus_two 1 2
                         (1 # 1000000) H1 H2)) 1%nat st Hrun).
Defined.

(** * Further properties of the solvers *)

(** ** Division, once more *)

Lemma truediv_returns (x y q : Q) :
  Py.truediv x y = Returned q -> q = x / y /\ ~ y == 0.
Proof.
  unfold Py.truediv. destruct (Qeq_bool y 0) eqn:E; [discriminate|].
  intro H. injection H as <-. split; [reflexivity|].
  now apply Qeq_bool_neq.
Qed.

(** ** The loop rule with a clause for exceptions *)

Section LoopsWithFaults.

Context {S R : Type}.
Variable body : Z -> S -> ctl S R.

Lemma for_range_triple (Inv : nat -> S -> Prop) (Post : nat -> R -> Prop)
      (Bad : nat -> exn -> Prop) :
  (forall k s s', Inv k s -> body (Z.of_nat k) s = Continue s' ->
                  Inv (Datatypes.S k) s') ->
  (forall k s r, Inv k s -> body (Z.of_nat k) s = Return r ->
                 Post (Datatypes.S k) r) ->
  (forall k s e, Inv k s -> body (Z.of_nat k) s = Raise e ->
                 Bad (Datatypes.S k) e) ->
  forall n k s, Inv k s ->
    match for_range body n (Z.of_nat k) s with
    | Exhausted s' => Inv (k + n)%nat s'
    | Broke r => Post (k + for_passes body n (Z.of_nat k) s)%nat r
    | Failed e => Bad (k + for_passes body n (Z.of_nat k) s)%nat e
    end.
Proof.
  intros Hcont Hret Hbad.
  induction n as [|n IH]; intros k s HI; simpl.
  - now rewrite Nat.add_0_r.
  - destruct (body (Z.of_nat k) s) as [s'|r|e] eqn:E.
    + specialize (IH (Datatypes.S k) s' (Hcont _ _ _ HI E)).
      replace (Z.of_nat k + 1)%Z with (Z.of_nat (Datatypes.S k)) by lia.
      replace (k + Datatypes.S n)%nat with (Datatypes.S k + n)%nat
        by lia.
      replace (k + Datatypes.S (for_passes body n
                                  (Z.of_nat (Datatypes.S k)) s'))%nat
        with (Datatypes.S k + for_passes body n
                                (Z.of_nat (Datatypes.S k)) s')%nat
        by lia.
      exact IH.
    + rewrite Nat.add_1_r. exact (Hret _ _ _ HI E).
    + rewrite Nat.add_1_r. exact (Hbad _ _ _ HI E).
Qed.

End LoopsWithFaults.

(** ** Logs, entry by entry *)

Lemma entries_ok_nil (res : Q -> Q) : entries_ok res [].
Proof. intros j r H. destruct j; discriminate. Qed.

Lemma entries_ok_snoc (res : Q -> Q) (log : list iteration) (x e : Q) :
  entries_ok res log ->
  entries_ok res
    (log ++ [Iteration (Z.of_nat (List.length log) + 1) x (res x) e]).
Proof.
  intros H j r Hj.
  destruct (Nat.lt_ge_cases j (List.length log)) as [Hlt|Hge].
  - rewrite nth_error_app1 in Hj by exact Hlt. now apply H.
  - rewrite nth_error_app2 in Hj by exact Hge.
    destruct (j - List.length log)%nat as [|m] eqn:E.
    + simpl in Hj. injection Hj as <-. simpl.
      assert (j = List.length log) by lia. subst j. now split.
    + simpl in Hj. destruct m; discriminate.
Qed.

(** ** What a run of a loop of that shape gives *)

Section Runs.

Context {S : Type}.
Variables (log : S -> list iteration) (cur : S -> option Q).
Variables (fault : S -> Prop) (next : S -> Q -> Prop).
Variables (res : Q -> Q) (err : S -> Q -> Q) (stop : S -> Q -> bool).
Variable body : Z -> S -> ctl S run_result.
Variable after : S -> outcome run_result.

Hypothesis body_ok : pass_ok log cur fault next res err stop body.
Hypothesis after_is_ok : after_ok log cur after.

Local Abbreviation last_pass' := (last_pass next res err stop).
Local Abbreviation run_inv' := (run_inv log cur next res err stop).
Local Abbreviation run_post' := (run_post next res err stop).

Lemma run_inv_step (k : nat) (s s' : S) :
  run_inv' k s -> body (Z.of_nat k) s = Continue s' ->
  run_inv' (Datatypes.S k) s'.
Proof.
  intros (Hlen & Hent & _) H.
  pose proof (body_ok (Z.of_nat k) s) as Hb. rewrite H in Hb.
  destruct Hb as (x & Hnext & Hstop & Hlog & Hcur).
  assert (Hent' : entries_ok res (log s')).
  { rewrite Hlog, <- Hlen. now apply entries_ok_snoc. }
  assert (Hlen' : List.length (log s') = Datatypes.S k).
  { rewrite Hlog, length_app. simpl. lia. }
  split; [exact Hlen'|]. split; [exact Hent'|].
  right. exists s, x. split; [exact Hcur|].
  refine (conj Hnext (conj Hstop (conj _ (conj Hlen' Hent')))).
  exists (log s). rewrite Hlog.
  now replace (Z.of_nat k + 1)%Z with (Z.of_nat (Datatypes.S k)) by lia.
Qed.

Lemma run_post_step (k : nat) (s : S) (r : run_result) :
  run_inv' k s -> body (Z.of_nat k) s = Return r ->
  run_post' (Datatypes.S k) r.
Proof.
  intros (Hlen & Hent & _) H.
  pose proof (body_ok (Z.of_nat k) s) as Hb. rewrite H in Hb.
  destruct Hb as (x & Hnext & Hstop & ->).
  exists s, x, (log s ++ [Iteration (Z.of_nat k + 1) x (res x)
                                    (err s x)]).
  split; [reflexivity|].
  refine (conj Hnext (conj Hstop (conj _ (conj _ _)))).
  - exists (log s).
    now replace (Z.of_nat k + 1)%Z with (Z.of_nat (Datatypes.S k))
      by lia.
  - rewrite length_app. simpl. lia.
  - rewrite <- Hlen. now apply entries_ok_snoc.
Qed.

Lemma run_fault_step (k : nat) (s : S) (e : exn) :
  run_inv' k s -> body (Z.of_nat k) s = Raise e ->
  e = ZeroDivisionError /\ exists s', fault s'.
Proof.
  intros _ H.
  pose proof (body_ok (Z.of_nat k) s) as Hb. rewrite H in Hb.
  destruct Hb as [-> Hf]. split; [reflexivity|now exists s].
Qed.

(** The three ways a loop started on an empty log, with the estimate
    variable unbound, ends. *)
Lemma run_ends (n : nat) (s0 : S) :
  log s0 = [] -> cur s0 = None ->
  match for_range body n 0%Z s0 with
  | Exhausted s => run_inv' n s
  | Broke r =>
      (for_passes body n 0%Z s0 <= n)%nat
      /\ run_post' (for_passes body n 0%Z s0) r
  | Failed e => e = ZeroDivisionError /\ exists s, fault s
  end.
Proof.
  intros H0 Hc0.
  assert (HI : run_inv' O s0).
  { split; [now rewrite H0|]. split; [|now left].
    rewrite H0. apply entries_ok_nil. }
  pose proof (for_range_triple body run_inv' run_post'
                (fun _ e => e = ZeroDivisionError /\ exists s, fault s)
                run_inv_step run_post_step run_fault_step n O s0 HI)
    as H.
  change (Z.of_nat 0) with 0%Z in H. cbn [Nat.add] in H.
  destruct (for_range body n 0%Z s0); try exact H.
  split; [apply for_passes_le|exact H].
Qed.

(** A call that returns, returns a full triple: the log is not empty and
    not longer than the range, its entries are numbered from 1 and hold
    the residual of their estimate, the last one holds the root; and
    either the last pass met the stopping test and the error returned is
    the one it logged, or the range was used up. *)
Lemma run_returns (n : nat) (s0 : S) (r : run_result) :
  log s0 = [] -> cur s0 = None ->
  fall_through after (for_range body n 0%Z s0) = Returned r ->
  exists root e lg t sp,
    r = (Some root, Some e, Some lg)
    /\ (List.length lg <= n)%nat
    /\ last_pass' sp t (List.length lg) root lg
    /\ (t = false -> List.length lg = n)
    /\ (t = true -> e = err sp root).
Proof.
  intros H0 Hc0 H. pose proof (run_ends n s0 H0 Hc0) as He.
  destruct (for_range body n 0%Z s0) as [s|r'|e]; simpl in H.
  - destruct He as (Hlen & Hent & [[-> Hc]|(sp & x & Hcur & Hlast)]);
      pose proof (after_is_ok s) as Ha.
    + rewrite Hc in Ha. rewrite Ha in H. discriminate.
    + rewrite Hcur in Ha.
      destruct Ha as (e & Ha). rewrite Ha in H. injection H as <-.
      exists x, e, (log s), false, sp. rewrite Hlen.
      refine (conj eq_refl (conj (Nat.le_refl n) (conj Hlast
                (conj (fun _ => eq_refl) _)))).
      discriminate.
  - injection H as ->. destruct He as (Hle & sp & x & lg & -> & Hl).
    pose proof Hl as (_ & _ & _ & Hlen & _).
    exists x, (err sp x), lg, true, sp. rewrite Hlen.
    refine (conj eq_refl (conj Hle (conj Hl (conj _ (fun _ => eq_refl))))).
    discriminate.
  - discriminate.
Qed.

End Runs.

(** ** The six bodies have that shape *)

Lemma bracket_return_ok : after_ok br_iterations br_c bracket_return.
Proof.
  intros s. unfold bracket_return. destruct (br_c s); [|reflexivity].
  now eexists.
Qed.

Lemma secant_return_ok : after_ok sc_iterations sc_x2 secant_return.
Proof.
  intros s. unfold secant_return. destruct (sc_x2 s); [|reflexivity].
  now eexists.
Qed.

Lemma point_return_ok : after_ok pt_iterations pt_x1 point_return.
Proof.
  intros s. unfold point_return. destruct (pt_x1 s); [|reflexivity].
  now eexists.
Qed.

Section Shapes.

Variables (f df g : Q -> Q) (tol delta : Q).

Lemma bisection_pass_ok :
  pass_ok br_iterations br_c (fun _ => False)
          (fun s x => x = (br_a s + br_b s) / 2)
          f (fun s _ => Qabs (br_b s - br_a s))
          (fun _ x => residual_stop f tol x)
          (bisection_body f tol).
Proof.
  intros i s. unfold bisection_body, bracket_step, residual_stop.
  cbv beta zeta.
  destruct (Py.lt (Qabs (f ((br_a s + br_b s) / 2))) tol) eqn:E.
  - eexists. split; [reflexivity|]. split; [exact E|reflexivity].
  - destruct (Py.lt _ 0); eexists;
      (split; [reflexivity|]); (split; [exact E|]); split; reflexivity.
Qed.

Lemma regula_falsi_pass_ok :
  pass_ok br_iterations br_c
          (fun s => f (br_b s) - f (br_a s) == 0)
          (fun s x => ~ f (br_b s) - f (br_a s) == 0
                      /\ x = regula_falsi_point f (br_a s) (br_b s))
          f (fun s _ => Qabs (br_b s - br_a s))
          (fun _ x => residual_stop f tol x)
          (regula_falsi_body f tol).
Proof.
  intros i s.
  unfold regula_falsi_body, bracket_step, residual_stop. cbv beta zeta.
  destruct (Py.truediv _ _) as [c|e] eqn:Ed; unfold Py.bind_ctl.
  - apply truediv_returns in Ed. destruct Ed as [-> Hd].
    fold (regula_falsi_point f (br_a s) (br_b s)).
    destruct (Py.lt (Qabs (f (regula_falsi_point f (br_a s) (br_b s))))
                    tol) eqn:E.
    + eexists. split; [split; [exact Hd|reflexivity]|].
      split; [exact E|reflexivity].
    + destruct (Py.lt _ 0); eexists;
        (split; [split; [exact Hd|reflexivity]|]);
        (split; [exact E|]); split; reflexivity.
  - now apply truediv_raises in Ed.
Qed.

Lemma secant_pass_ok :
  pass_ok sc_iterations sc_x2
          (fun s => f (sc_x1 s) - f (sc_x0 s) == 0)
          (fun s x => ~ f (sc_x1 s) - f (sc_x0 s) == 0
                      /\ x = secant_point f (sc_x0 s) (sc_x1 s))
          f (fun s x => Qabs (x - sc_x1 s))
          (fun _ x => residual_stop f tol x)
          (secant_body f tol).
Proof.
  intros i s. unfold secant_body, residual_stop. cbv beta zeta.
  destruct (Py.truediv _ _) as [q|e] eqn:Ed; unfold Py.bind_ctl.
  - apply truediv_returns in Ed. destruct Ed as [-> Hd].
    fold (secant_point f (sc_x0 s) (sc_x1 s)).
    destruct (Py.lt (Qabs (f (secant_point f (sc_x0 s) (sc_x1 s)))) tol)
      eqn:E; eexists;
      (split; [split; [exact Hd|reflexivity]|]);
      (split; [exact E|]); try split; reflexivity.
  - now apply truediv_raises in Ed.
Qed.

Lemma newton_raphson_pass_ok :
  pass_ok pt_iterations pt_x1
          (fun s => df (pt_x0 s) == 0)
          (fun s x => ~ df (pt_x0 s) == 0
                      /\ x = newton_raphson_point f df (pt_x0 s))
          f (fun s x => Qabs (x - pt_x0 s))
          (fun _ x => residual_stop f tol x)
          (newton_raphson_body f df tol).
Proof.
  intros i s. unfold newton_raphson_body, residual_stop. cbv beta zeta.
  destruct (Py.truediv _ _) as [q|e] eqn:Ed; unfold Py.bind_ctl.
  - apply truediv_returns in Ed. destruct Ed as [-> Hd].
    fold (newton_raphson_point f df (pt_x0 s)).
    destruct (Py.lt (Qabs (f (newton_raphson_point f df (pt_x0 s)))) tol)
      eqn:E; eexists;
      (split; [split; [exact Hd|reflexivity]|]);
      (split; [exact E|]); try split; reflexivity.
  - now apply truediv_raises in Ed.
Qed.

Lemma fixed_point_iteration_pass_ok :
  pass_ok pt_iterations pt_x1 (fun _ => False)
          (fun s x => x = g (pt_x0 s))
          (fun x => x - g x) (fun s x => Qabs (x - pt_x0 s))
          (fun s x => Py.lt (Qabs (x - pt_x0 s)) tol)
          (fixed_point_iteration_body g tol).
Proof.
  intros i s. unfold fixed_point_iteration_body. cbv beta zeta.
  destruct (Py.lt (Qabs (g (pt_x0 s) - pt_x0 s)) tol) eqn:E; eexists;
    (split; [reflexivity|]); (split; [exact E|]);
    try split; reflexivity.
Qed.

Lemma modified_secant_pass_ok :
  pass_ok pt_iterations pt_x1
          (fun s => f (pt_x0 s + delta * pt_x0 s) - f (pt_x0 s) == 0)
          (fun s x => ~ f (pt_x0 s + delta * pt_x0 s) - f (pt_x0 s) == 0
                      /\ x = modified_secant_point f delta (pt_x0 s))
          f (fun s x => Qabs (x - pt_x0 s))
          (fun _ x => residual_stop f tol x)
          (modified_secant_body f delta tol).
Proof.
  intros i s. unfold modified_secant_body, residual_stop. cbv beta zeta.
  destruct (Py.truediv _ _) as [q|e] eqn:Ed; unfold Py.bind_ctl.
  - apply truediv_returns in Ed. destruct Ed as [-> Hd].
    fold (modified_secant_point f delta (pt_x0 s)).
    destruct (Py.lt (Qabs (f (modified_secant_point f delta (pt_x0 s))))
                    tol)
      eqn:E; eexists;
      (split; [split; [exact Hd|reflexivity]|]);
      (split; [exact E|]); try split; reflexivity.
  - now apply truediv_raises in Ed.
Qed.

End Shapes.

(** ** What every returned log looks like *)

(** The facts [run_returns] gives about a returning call [H] of a solver
    whose body and closing statement have the shapes [Hb] and [Ha]. *)
Ltac run_facts H Hb Ha :=
  let t := fresh "t" in
  let sp := fresh "sp" in
  let Heq := fresh "Heq" in
  let Hle := fresh "Hle" in
  let Hlast := fresh "Hlast" in
  let Hfull := fresh "Hfull" in
  let Hstop := fresh "Hstop" in
  let root' := fresh "root" in
  let e' := fresh "e" in
  let lg' := fresh "lg" in
  let X := fresh "X" in
  pose proof (fun h0 hc =>
                run_returns _ _ _ _ _ _ _ _ _ Hb Ha _ _ _ h0 hc H) as X;
  destruct (X eq_refl eq_refl)
    as (root' & e' & lg' & t & sp & Heq & Hle & Hlast & Hfull & Hstop);
  clear X;
  injection Heq as <- <- <-.

(** A bracketing method that returns a root passed its bracket test. *)
Lemma bisection_ran (f : Q -> Q) (a b tol : Q) (max_iter : Z)
      (root err : Q) (log : list iteration) :
  value (bisection f a b tol max_iter)
  = Returned (Some root, Some err, Some log) ->
  f a * f b < 0
  /\ fall_through bracket_return
       (for_range (bisection_body f tol) (Z.to_nat max_iter) 0%Z
                  (bracket_init a b))
     = Returned (Some root, Some err, Some log).
Proof.
  unfold bisection. destruct (Py.ge (f a * f b) 0) eqn:E;
    [discriminate|].
  intro H. split; [now apply ge_false|exact H].
Qed.

Lemma regula_falsi_ran (f : Q -> Q) (a b tol : Q) (max_iter : Z)
      (root err : Q) (log : list iteration) :
  value (regula_falsi f a b tol max_iter)
  = Returned (Some root, Some err, Some log) ->
  f a * f b < 0
  /\ fall_through bracket_return
       (for_range (regula_falsi_body f tol) (Z.to_nat max_iter) 0%Z
                  (bracket_init a b))
     = Returned (Some root, Some err, Some log).
Proof.
  unfold regula_falsi. destruct (Py.ge (f a * f b) 0) eqn:E;
    [discriminate|].
  intro H. split; [now apply ge_false|exact H].
Qed.

(** X2. In the log any of the six methods returns, the entry at
    position [j] (from 0) carries the number [j + 1], and its third
    field is the residual at its estimate: [f(x)], or [x - g(x)] for
    fixed-point iteration. *)
Theorem log_entries_numbered :
  (forall f a b tol max_iter root err log,
      value (bisection f a b tol max_iter)
      = Returned (Some root, Some err, Some log) ->
      entries_ok f log)
  /\ (forall f a b tol max_iter root err log,
         value (regula_falsi f a b tol max_iter)
         = Returned (Some root, Some err, Some log) ->
         entries_ok f log)
  /\ (forall f x0 x1 tol max_iter root err log,
         value (secant f x0 x1 tol max_iter)
         = Returned (Some root, Some err, Some log) ->
         entries_ok f log)
  /\ (forall f df x0 tol max_iter root err log,
         value (newton_raphson f df x0 tol max_iter)
         = Returned (Some root, Some err, Some log) ->
         entries_ok f log)
  /\ (forall g x0 tol max_iter root err log,
         value (fixed_point_iteration g x0 tol max_iter)
         = Returned (Some root, Some err, Some log) ->
         entries_ok (fun x => x - g x) log)
  /\ (forall f x0 delta tol max_iter root err log,
         value (modified_secant f x0 delta tol max_iter)
         = Returned (Some root, Some err, Some log) ->
         entries_ok f log).
Proof.
  split; [|split; [|split; [|split; [|split]]]];
    intros until log; intro H.
  - apply bisection_ran in H. destruct H as [_ H].
    run_facts H (bisection_pass_ok f tol) bracket_return_ok.
    apply Hlast.
  - apply regula_falsi_ran in H. destruct H as [_ H].
    run_facts H (regula_falsi_pass_ok f tol) bracket_return_ok.
    apply Hlast.
  - unfold secant in H. simpl in H.
    run_facts H (secant_pass_ok f tol) secant_return_ok. apply Hlast.
  - unfold newton_raphson in H. simpl in H.
    run_facts H (newton_raphson_pass_ok f df tol) point_return_ok.
    apply Hlast.
  - unfold fixed_point_iteration in H. simpl in H.
    run_facts H (fixed_point_iteration_pass_ok g tol) point_return_ok.
    apply Hlast.
  - unfold modified_secant in H. simpl in H.
    run_facts H (modified_secant_pass_ok f tol delta) point_return_ok.
    apply Hlast.
Qed.

(** Newton-Raphson on [x^2 - 2] from 1, two passes: the second entry
    carries the number 2 and the residual of [17/12]. *)
Lemma log_entries_numbered_witness :
  index (Iteration 2 (68 # 48) (16 # 2304) (8 # 96)) = 2%Z
  /\ residual (Iteration 2 (68 # 48) (16 # 2304) (8 # 96))
     = square_minus_two (estimate (Iteration 2 (68 # 48) (16 # 2304)
                                             (8 # 96))).
Proof.
  apply (proj1 (proj2 (proj2 (proj2 log_entries_numbered)))
               square_minus_two (fun x => 2 * x) 1 (1 # 1000000) 2%Z
               (68 # 48) (0 # 2304)
               [Iteration 1 (3 # 2) (1 # 4) (1 # 2);
                Iteration 2 (68 # 48) (16 # 2304) (8 # 96)]
               eq_refl 1%nat).
  reflexivity.
Defined.

(** X3. A log returned by any of the six methods has at least one entry
    and at most [max_iter]; if it has fewer than [max_iter], the call
    stopped on its test: [abs(f(root)) < tol], or for fixed-point
    iteration [error < tol]. *)
Theorem log_length_and_stopping :
  (forall f a b tol max_iter root err log,
      value (bisection f a b tol max_iter)
      = Returned (Some root, Some err, Some log) ->
      (1 <= Z.of_nat (List.length log) <= max_iter)%Z
      /\ (Qabs (f root) < tol \/ Z.of_nat (List.length log) = max_iter))
  /\ (forall f a b tol max_iter root err log,
         value (regula_falsi f a b tol max_iter)
         = Returned (Some root, Some err, Some log) ->
         (1 <= Z.of_nat (List.length log) <= max_iter)%Z
         /\ (Qabs (f root) < tol
             \/ Z.of_nat (List.length log) = max_iter))
  /\ (forall f x0 x1 tol max_iter root err log,
         value (secant f x0 x1 tol max_iter)
         = Returned (Some root, Some err, Some log) ->
         (1 <= Z.of_nat (List.length log) <= max_iter)%Z
         /\ (Qabs (f root) < tol
             \/ Z.of_nat (List.length log) = max_iter))
  /\ (forall f df x0 tol max_iter root err log,
         value (newton_raphson f df x0 tol max_iter)
         = Returned (Some root, Some err, Some log) ->
         (1 <= Z.of_nat (List.length log) <= max_iter)%Z
         /\ (Qabs (f root) < tol
             \/ Z.of_nat (List.length log) = max_iter))
  /\ (forall g x0 tol max_iter root err log,
         value (fixed_point_iteration g x0 tol max_iter)
         = Returned (Some root, Some err, Some log) ->
         (1 <= Z.of_nat (List.length log) <= max_iter)%Z
         /\ (err < tol \/ Z.of_nat (List.length log) = max_iter))
  /\ (forall f x0 delta tol max_iter root err log,
         value (modified_secant f x0 delta tol max_iter)
         = Returned (Some root, Some err, Some log) ->
         (1 <= Z.of_nat (List.length log) <= max_iter)%Z
         /\ (Qabs (f root) < tol
             \/ Z.of_nat (List.length log) = max_iter)).
Proof.
  assert (Hlen : forall (log : list iteration) (n : Z),
             (List.length log <= Z.to_nat n)%nat ->
             (exists l r, log = l ++ [r]) ->
             (1 <= Z.of_nat (List.length log) <= n)%Z).
  { intros log n Hle (l & r & ->). rewrite length_app in *.
    simpl in *. lia. }
  assert (Hfull : forall (log : list iteration) (n : Z),
             (List.length log <= Z.to_nat n)%nat ->
             (exists l r, log = l ++ [r]) ->
             List.length log = Z.to_nat n ->
             Z.of_nat (List.length log) = n).
  { intros log n Hle Hne E. pose proof (Hlen log n Hle Hne). lia. }
  split; [|split; [|split; [|split; [|split]]]];
    intros until log; intro H.
  - apply bisection_ran in H. destruct H as [_ H].
    run_facts H (bisection_pass_ok f tol) bracket_return_ok.
    destruct Hlast as (_ & Ht & (l & Hl) & _).
    split; [apply Hlen; eauto|].
    destruct t; [left; now apply lt_true|right; apply Hfull; eauto].
  - apply regula_falsi_ran in H. destruct H as [_ H].
    run_facts H (regula_falsi_pass_ok f tol) bracket_return_ok.
    destruct Hlast as (_ & Ht & (l & Hl) & _).
    split; [apply Hlen; eauto|].
    destruct t; [left; now apply lt_true|right; apply Hfull; eauto].
  - unfold secant in H. simpl in H.
    run_facts H (secant_pass_ok f tol) secant_return_ok.
    destruct Hlast as (_ & Ht & (l & Hl) & _).
    split; [apply Hlen; eauto|].
    destruct t; [left; now apply lt_true|right; apply Hfull; eauto].
  - unfold newton_raphson in H. simpl in H.
    run_facts H (newton_raphson_pass_ok f df tol) point_return_ok.
    destruct Hlast as (_ & Ht & (l & Hl) & _).
    split; [apply Hlen; eauto|].
    destruct t; [left; now apply lt_true|right; apply Hfull; eauto].
  - unfold fixed_point_iteration in H. simpl in H.
    run_facts H (fixed_point_iteration_pass_ok g tol) point_return_ok.
    destruct Hlast as (_ & Ht & (l & Hl) & _).
    split; [apply Hlen; eauto|].
    destruct t; [left|right; apply Hfull; eauto].
    rewrite (Hstop eq_refl). now apply lt_true.
  - unfold modified_secant in H. simpl in H.
    run_facts H (modified_secant_pass_ok f tol delta) point_return_ok.
    destruct Hlast as (_ & Ht & (l & Hl) & _).
    split; [apply Hlen; eauto|].
    destruct t; [left; now apply lt_true|right; apply Hfull; eauto].
Qed.

Lemma log_length_and_stopping_witness :
  (1 <= Z.of_nat (List.length [Iteration 1 (1 # 2) (2 # 2) 1;
                                Iteration 2 (1 # 4) (-4 # 4) (1 # 2);
                                Iteration 3 0x0.6%xQ 0x0.0%xQ (2 # 8)])
   <= 100)%Z
  /\ (Qabs (steep 0x0.6%xQ) < 1 # 2
      \/ Z.of_nat (List.length [Iteration 1 (1 # 2) (2 # 2) 1;
                                 Iteration 2 (1 # 4) (-4 # 4) (1 # 2);
                                 Iteration 3 0x0.6%xQ 0x0.0%xQ (2 # 8)])
         = 100%Z).
Proof.
  apply (proj1 log_length_and_stopping steep 0 1 (1 # 2) 100%Z
               0x0.6%xQ (2 # 8)).
  reflexivity.
Defined.

(** ** The open methods: steps and the error returned *)

Lemma last_point_snoc (x : Q) (l : list iteration) (r : iteration) :
  last_point x (l ++ [r]) = estimate r.
Proof. unfold last_point. now rewrite fold_left_app. Qed.

Lemma steps_from_snoc (x : Q) (l : list iteration) (r : iteration) :
  steps_from x l -> error r = Qabs (estimate r - last_point x l) ->
  steps_from x (l ++ [r]).
Proof.
  revert x. induction l as [|r' l IH]; intros x Hl Hr; simpl.
  - split; [exact Hr|exact I].
  - destruct Hl as [H1 H2]. split; [exact H1|].
    apply IH; [exact H2|exact Hr].
Qed.

Section OpenRuns.

Context {S : Type}.
Variables (log : S -> list iteration) (cur : S -> option Q).
Variables (fault : S -> Prop) (next : S -> Q -> Prop).
Variables (res : Q -> Q) (stop : S -> Q -> bool).
Variable pos : S -> Q.
Variable body : Z -> S -> ctl S run_result.

Hypothesis body_ok :
  pass_ok log cur fault next res (fun s x => Qabs (x - pos s)) stop body.
Hypothesis body_moves :
  forall i s s', body i s = Continue s' -> cur s' = Some (pos s').

Variable p0 : Q.

(** The frame of an open method between passes: the log steps from the
    starting point, and the point the next step is measured from is the
    estimate just logged. *)
Lemma open_run_ends (n : nat) (s0 : S) :
  log s0 = [] -> pos s0 = p0 -> cur s0 = None ->
  match for_range body n 0%Z s0 with
  | Exhausted s =>
      steps_from p0 (log s) /\ forall x, cur s = Some x -> pos s = x
  | Broke r =>
      forall x e lg, r = (Some x, Some e, Some lg) -> steps_from p0 lg
  | Failed _ => True
  end.
Proof.
  intros H0 Hp Hc.
  pose proof (for_range_rule body
                (fun _ s => steps_from p0 (log s)
                            /\ last_point p0 (log s) = pos s
                            /\ forall x, cur s = Some x -> pos s = x)
                (fun _ r => forall x e lg,
                     r = (Some x, Some e, Some lg) -> steps_from p0 lg))
    as Hrule.
  assert (H : match for_range body n (Z.of_nat 0) s0 with
              | Exhausted s =>
                  steps_from p0 (log s)
                  /\ last_point p0 (log s) = pos s
                  /\ forall x, cur s = Some x -> pos s = x
              | Broke r =>
                  forall x e lg, r = (Some x, Some e, Some lg) ->
                                 steps_from p0 lg
              | Failed _ => True
              end).
  { apply Hrule.
    - intros k s s' (Hs & Hl & _) Hb.
      pose proof (body_ok (Z.of_nat k) s) as Hk. rewrite Hb in Hk.
      destruct Hk as (x & _ & _ & Hlog & Hcur).
      pose proof (body_moves _ _ _ Hb) as Hm.
      rewrite Hcur in Hm. injection Hm as Hm.
      rewrite Hlog. split; [|split].
      + apply steps_from_snoc; [exact Hs|]. cbn [error estimate].
        now rewrite Hl.
      + rewrite last_point_snoc. cbn [estimate]. exact Hm.
      + intros y Hy. rewrite Hcur in Hy. injection Hy as <-.
        now symmetry.
    - intros k s r (Hs & Hl & _) Hb x e lg Hr.
      pose proof (body_ok (Z.of_nat k) s) as Hk. rewrite Hb in Hk.
      destruct Hk as (y & _ & _ & Hy). rewrite Hy in Hr.
      injection Hr as <- <- <-.
      apply steps_from_snoc; [exact Hs|]. cbn [error estimate].
      now rewrite Hl.
    - rewrite H0, Hc. repeat split; [exact (eq_sym Hp)|discriminate]. }
  change (Z.of_nat 0) with 0%Z in H.
  destruct (for_range body n 0%Z s0); try exact H.
  split; [apply H|apply H].
Qed.

End OpenRuns.

Section OpenMoves.

Variables (f df g : Q -> Q) (tol delta : Q).

Lemma secant_body_moves (i : Z) (s s' : secant_frame) :
  secant_body f tol i s = Continue s' -> sc_x2 s' = Some (sc_x1 s').
Proof.
  intro H. unfold secant_body in H. split_body H.
  now injection H as <-.
Qed.

Lemma newton_raphson_body_moves (i : Z) (s s' : point_frame) :
  newton_raphson_body f df tol i s = Continue s' ->
  pt_x1 s' = Some (pt_x0 s').
Proof.
  intro H. unfold newton_raphson_body in H. split_body H.
  now injection H as <-.
Qed.

Lemma fixed_point_iteration_body_moves (i : Z) (s s' : point_frame) :
  fixed_point_iteration_body g tol i s = Continue s' ->
  pt_x1 s' = Some (pt_x0 s').
Proof.
  intro H. unfold fixed_point_iteration_body in H. split_body H.
  now injection H as <-.
Qed.

Lemma modified_secant_body_moves (i : Z) (s s' : point_frame) :
  modified_secant_body f delta tol i s = Continue s' ->
  pt_x1 s' = Some (pt_x0 s').
Proof.
  intro H. unfold modified_secant_body in H. split_body H.
  now injection H as <-.
Qed.

End OpenMoves.

(** X4. The log [secant], [newton_raphson], [fixed_point_iteration] and
    [modified_secant] return steps from the starting point: the error
    of each entry is the distance of its estimate from the estimate of
    the entry before, and for the first entry from the initial guess
    ([x1] for [secant], [x0] for the others). *)
Theorem open_log_steps :
  (forall f x0 x1 tol max_iter root err log,
      value (secant f x0 x1 tol max_iter)
      = Returned (Some root, Some err, Some log) ->
      steps_from x1 log)
  /\ (forall f df x0 tol max_iter root err log,
         value (newton_raphson f df x0 tol max_iter)
         = Returned (Some root, Some err, Some log) ->
         steps_from x0 log)
  /\ (forall g x0 tol max_iter root err log,
         value (fixed_point_iteration g x0 tol max_iter)
         = Returned (Some root, Some err, Some log) ->
         steps_from x0 log)
  /\ (forall f x0 delta tol max_iter root err log,
         value (modified_secant f x0 delta tol max_iter)
         = Returned (Some root, Some err, Some log) ->
         steps_from x0 log).
Proof.
  split; [|split; [|split]]; intros until log; intro H.
  - unfold secant in H. simpl in H.
    pose proof (open_run_ends _ _ _ _ _ _ sc_x1 _
                  (secant_pass_ok f tol) (secant_body_moves f tol) x1
                  (Z.to_nat max_iter) (secant_init x0 x1)
                  eq_refl eq_refl eq_refl) as He.
    destruct (for_range _ _ _ _) as [s|r|e]; simpl in H.
    + unfold secant_return in H. destruct (sc_x2 s); [|discriminate].
      injection H as <- <- <-. apply He.
    + injection H as ->. now apply (He root err log).
    + discriminate.
  - unfold newton_raphson in H. simpl in H.
    pose proof (open_run_ends _ _ _ _ _ _ pt_x0 _
                  (newton_raphson_pass_ok f df tol)
                  (newton_raphson_body_moves f df tol) x0
                  (Z.to_nat max_iter) (point_init x0)
                  eq_refl eq_refl eq_refl) as He.
    destruct (for_range _ _ _ _) as [s|r|e]; simpl in H.
    + unfold point_return in H. destruct (pt_x1 s); [|discriminate].
      injection H as <- <- <-. apply He.
    + injection H as ->. now apply (He root err log).
    + discriminate.
  - unfold fixed_point_iteration in H. simpl in H.
    pose proof (open_run_ends _ _ _ _ _ _ pt_x0 _
                  (fixed_point_iteration_pass_ok g tol)
                  (fixed_point_iteration_body_moves g tol) x0
                  (Z.to_nat max_iter) (point_init x0)
                  eq_refl eq_refl eq_refl) as He.
    destruct (for_range _ _ _ _) as [s|r|e]; simpl in H.
    + unfold point_return in H. destruct (pt_x1 s); [|discriminate].
      injection H as <- <- <-. apply He.
    + injection H as ->. now apply (He root err log).
    + discriminate.
  - unfold modified_secant in H. simpl in H.
    pose proof (open_run_ends _ _ _ _ _ _ pt_x0 _
                  (modified_secant_pass_ok f tol delta)
                  (modified_secant_body_moves f tol delta) x0
                  (Z.to_nat max_iter) (point_init x0)
                  eq_refl eq_refl eq_refl) as He.
    destruct (for_range _ _ _ _) as [s|r|e]; simpl in H.
    + unfold point_return in H. destruct (pt_x1 s); [|discriminate].
      injection H as <- <- <-. apply He.
    + injection H as ->. now apply (He root err log).
    + discriminate.
Qed.

Lemma open_log_steps_witness :
  steps_from 1 [Iteration 1 (3 # 2) (1 # 4) (1 # 2);
                Iteration 2 (68 # 48) (16 # 2304) (8 # 96)].
Proof.
  apply (proj1 (proj2 open_log_steps)
               square_minus_two (fun x => 2 * x) 1 (1 # 1000000) 2%Z
               (68 # 48) (0 # 2304)).
  reflexivity.
Defined.

Section OpenReturns.

Context {S : Type}.
Variables (log : S -> list iteration) (cur : S -> option Q).
Variables (fault : S -> Prop) (next : S -> Q -> Prop).
Variables (res : Q -> Q) (stop : S -> Q -> bool).
Variable pos : S -> Q.
Variable body : Z -> S -> ctl S run_result.
Variable after : S -> outcome run_result.

Hypothesis body_ok :
  pass_ok log cur fault next res (fun s x => Qabs (x - pos s)) stop body.
Hypothesis body_moves :
  forall i s s', body i s = Continue s' -> cur s' = Some (pos s').
Hypothesis after_is_ok : after_ok log cur after.
Hypothesis after_error :
  forall s x e lg, after s = Returned (Some x, Some e, Some lg) ->
                   e = Qabs (x - pos s).

(** What an open method returns: the last entry holds the root and the
    last step; the error returned is that step when the pass stopped,
    and the distance of the root from itself when the range ran out. *)
Lemma open_run_returns (n : nat) (s0 : S) (r : run_result) :
  log s0 = [] -> cur s0 = None ->
  fall_through after (for_range body n 0%Z s0) = Returned r ->
  exists root e lg sp l,
    r = (Some root, Some e, Some lg)
    /\ next sp root
    /\ lg = l ++ [Iteration (Z.of_nat (List.length lg)) root (res root)
                            (Qabs (root - pos sp))]
    /\ ((stop sp root = true /\ e = Qabs (root - pos sp))
        \/ (stop sp root = false /\ e = Qabs (root - root)
            /\ List.length lg = n)).
Proof.
  intros H0 Hc H.
  pose proof (run_ends _ _ _ _ _ _ _ _ body_ok n s0 H0 Hc) as He.
  pose proof (open_run_ends _ _ _ _ _ _ _ _ body_ok body_moves (pos s0)
                n s0 H0 eq_refl Hc) as Ho.
  destruct (for_range body n 0%Z s0) as [s|r'|e]; simpl in H.
  - destruct He as (Hlen & _ & [[-> Hcs]|(sp & x & Hcur & Hlast)]).
    + pose proof (after_is_ok s) as Ha. rewrite Hcs in Ha.
      rewrite Ha in H. discriminate.
    + pose proof (after_is_ok s) as Ha. rewrite Hcur in Ha.
      destruct Ha as (e & Ha). rewrite Ha in H. injection H as <-.
      pose proof (after_error _ _ _ _ Ha) as ->.
      rewrite (proj2 Ho x Hcur).
      destruct Hlast as (Hn & Hs & (l & Hl) & _ & _).
      exists x, (Qabs (x - x)), (log s), sp, l.
      rewrite Hlen.
      refine (conj eq_refl (conj Hn (conj Hl (or_intror _)))).
      now repeat split.
  - injection H as ->.
    destruct He as (_ & sp & x & lg & -> & Hn & Hs & (l & Hl) & Hlen & _).
    exists x, (Qabs (x - pos sp)), lg, sp, l. rewrite Hlen.
    refine (conj eq_refl (conj Hn (conj Hl (or_introl _)))).
    now split.
  - discriminate.
Qed.

End OpenReturns.

Lemma secant_return_error (s : secant_frame) (x e : Q)
      (lg : list iteration) :
  secant_return s = Returned (Some x, Some e, Some lg) ->
  e = Qabs (x - sc_x1 s).
Proof.
  unfold secant_return. destruct (sc_x2 s); [|discriminate].
  intro H. now injection H as <- <- <-.
Qed.

Lemma point_return_error (s : point_frame) (x e : Q)
      (lg : list iteration) :
  point_return s = Returned (Some x, Some e, Some lg) ->
  e = Qabs (x - pt_x0 s).
Proof.
  unfold point_return. destruct (pt_x1 s); [|discriminate].
  intro H. now injection H as <- <- <-.
Qed.

Lemma Qabs_self (x : Q) : Qabs (x - x) == 0.
Proof.
  assert (E : x - x == 0) by ring. rewrite E. reflexivity.
Qed.

(** X5. In exact arithmetic and for handles that return a finite
    Python float on every input, what [secant], [newton_raphson] and
    [modified_secant] return as the error: when the last pass met
    [abs(f(x)) < tol], the step logged in the last entry; when the range
    ran out before that, zero (the statement after the loop measures the
    estimate against itself), whatever the last step in the log was. *)
Theorem open_methods_final_error :
  (forall f x0 x1 tol max_iter root err log,
      value (secant f x0 x1 tol max_iter)
      = Returned (Some root, Some err, Some log) ->
      exists l ent,
        log = l ++ [ent] /\ estimate ent = root
        /\ ((Qabs (f root) < tol /\ err = error ent)
            \/ (tol <= Qabs (f root) /\ err == 0
                /\ Z.of_nat (List.length log) = max_iter)))
  /\ (forall f df x0 tol max_iter root err log,
         value (newton_raphson f df x0 tol max_iter)
         = Returned (Some root, Some err, Some log) ->
         exists l ent,
           log = l ++ [ent] /\ estimate ent = root
           /\ ((Qabs (f root) < tol /\ err = error ent)
               \/ (tol <= Qabs (f root) /\ err == 0
                   /\ Z.of_nat (List.length log) = max_iter)))
  /\ (forall f x0 delta tol max_iter root err log,
         value (modified_secant f x0 delta tol max_iter)
         = Returned (Some root, Some err, Some log) ->
         exists l ent,
           log = l ++ [ent] /\ estimate ent = root
           /\ ((Qabs (f root) < tol /\ err = error ent)
               \/ (tol <= Qabs (f root) /\ err == 0
                   /\ Z.of_nat (List.length log) = max_iter))).
Proof.
  assert (Hfull : forall (l : list iteration) (ent : iteration) (n : Z),
             List.length (l ++ [ent]) = Z.to_nat n ->
             Z.of_nat (List.length (l ++ [ent])) = n).
  { intros l ent n. rewrite length_app. simpl. lia. }
  split; [|split]; intros until log; intro H.
  - unfold secant in H. simpl in H.
    destruct (open_run_returns _ _ _ _ _ _ sc_x1 _ _
                (secant_pass_ok f tol) (secant_body_moves f tol)
                secant_return_ok secant_return_error
                (Z.to_nat max_iter) (secant_init x0 x1) _
                eq_refl eq_refl H)
      as (root' & e & lg & sp & l & Heq & _ & Hl & Hcase).
    injection Heq as <- <- <-. eexists l, _. split; [exact Hl|].
    split; [reflexivity|]. cbn [error].
    destruct Hcase as [[Hs ->]|(Hs & -> & Hn)].
    + left. split; [now apply lt_true|reflexivity].
    + right. split; [now apply lt_false|].
      split; [apply Qabs_self|]. rewrite Hl in Hn |- *.
      now apply Hfull.
  - unfold newton_raphson in H. simpl in H.
    destruct (open_run_returns _ _ _ _ _ _ pt_x0 _ _
                (newton_raphson_pass_ok f df tol)
                (newton_raphson_body_moves f df tol)
                point_return_ok point_return_error
                (Z.to_nat max_iter) (point_init x0) _
                eq_refl eq_refl H)
      as (root' & e & lg & sp & l & Heq & _ & Hl & Hcase).
    injection Heq as <- <- <-. eexists l, _. split; [exact Hl|].
    split; [reflexivity|]. cbn [error].
    destruct Hcase as [[Hs ->]|(Hs & -> & Hn)].
    + left. split; [now apply lt_true|reflexivity].
    + right. split; [now apply lt_false|].
      split; [apply Qabs_self|]. rewrite Hl in Hn |- *.
      now apply Hfull.
  - unfold modified_secant in H. simpl in H.
    destruct (open_run_returns _ _ _ _ _ _ pt_x0 _ _
                (modified_secant_pass_ok f tol delta)
                (modified_secant_body_moves f tol delta)
                point_return_ok point_return_error
                (Z.to_nat max_iter) (point_init x0) _
                eq_refl eq_refl H)
      as (root' & e & lg & sp & l & Heq & _ & Hl & Hcase).
    injection Heq as <- <- <-. eexists l, _. split; [exact Hl|].
    split; [reflexivity|]. cbn [error].
    destruct Hcase as [[Hs ->]|(Hs & -> & Hn)].
    + left. split; [now apply lt_true|reflexivity].
    + right. split; [now apply lt_false|].
      split; [apply Qabs_self|]. rewrite Hl in Hn |- *.
      now apply Hfull.
Qed.

(** Newton-Raphson on [x^2 - 2] from 1 with [max_iter = 2]: the range
    runs out at [17/12], whose residual is above the tolerance; the
    error returned is zero, the step in the last entry [1/12]. *)
Lemma open_methods_final_error_witness :
  exists l ent,
    [Iteration 1 (3 # 2) (1 # 4) (1 # 2);
     Iteration 2 (68 # 48) (16 # 2304) (8 # 96)] = l ++ [ent]
    /\ estimate ent = 68 # 48
    /\ ((Qabs (square_minus_two (68 # 48)) < 1 # 1000000
         /\ 0 # 2304 = error ent)
        \/ (1 # 1000000 <= Qabs (square_minus_two (68 # 48))
            /\ 0 # 2304 == 0
            /\ Z.of_nat (List.length
                           [Iteration 1 (3 # 2) (1 # 4) (1 # 2);
                            Iteration 2 (68 # 48) (16 # 2304) (8 # 96)])
               = 2%Z)).
Proof.
  apply (proj1 (proj2 open_methods_final_error)
               square_minus_two (fun x => 2 * x) 1 (1 # 1000000) 2%Z).
  reflexivity.
Defined.

(** ** Fixed-point iteration *)

(** X6. In exact arithmetic and for a map [g] that returns a finite
    Python float on every input, what [fixed_point_iteration] returns as
    the error: when the last pass met [abs(x1 - x0) < tol], that step,
    which is the error of the last entry; when the range ran out, zero,
    although the last step logged is not below [tol].  So with [tol > 0]
    the error returned is below [tol] in either case. *)
Theorem fixed_point_final_error (g : Q -> Q) (x0 tol : Q) (max_iter : Z)
        (root err : Q) (log : list iteration) :
  value (fixed_point_iteration g x0 tol max_iter)
  = Returned (Some root, Some err, Some log) ->
  (exists l ent,
      log = l ++ [ent] /\ estimate ent = root
      /\ ((error ent < tol /\ err = error ent)
          \/ (tol <= error ent /\ err == 0
              /\ Z.of_nat (List.length log) = max_iter)))
  /\ (0 < tol -> err < tol).
Proof.
  intro H. unfold fixed_point_iteration in H. simpl in H.
  destruct (open_run_returns _ _ _ _ _ _ pt_x0 _ _
              (fixed_point_iteration_pass_ok g tol)
              (fixed_point_iteration_body_moves g tol)
              point_return_ok point_return_error
              (Z.to_nat max_iter) (point_init x0) _
              eq_refl eq_refl H)
    as (root' & e & lg & sp & l & Heq & _ & Hl & Hcase).
  injection Heq as <- <- <-.
  destruct Hcase as [[Hs ->]|(Hs & -> & Hn)].
  - apply lt_true in Hs. split; [|intros _; exact Hs].
    eexists l, _. split; [exact Hl|]. split; [reflexivity|].
    cbn [error]. left. now split.
  - apply lt_false in Hs. split.
    + eexists l, _. split; [exact Hl|]. split; [reflexivity|].
      cbn [error]. right. split; [exact Hs|].
      split; [apply Qabs_self|].
      rewrite Hl in Hn |- *. rewrite length_app in *. simpl in *. lia.
    + intro Htol. now rewrite Qabs_self.
Qed.

(** [g(x) = x + 1] has no fixed point: two passes from 0 log the steps
    1 and 1, and the error returned is 0. *)
Lemma fixed_point_final_error_witness :
  (exists l ent,
      [Iteration 1 1 (-1) 1; Iteration 2 2 (-1) 1] = l ++ [ent]
      /\ estimate ent = 2
      /\ ((error ent < 1 # 2 /\ 0 = error ent)
          \/ (1 # 2 <= error ent /\ 0 == 0
              /\ Z.of_nat (List.length [Iteration 1 1 (-1) 1;
                                        Iteration 2 2 (-1) 1]) = 2%Z)))
  /\ (0 < 1 # 2 -> 0 < 1 # 2).
Proof.
  apply (fixed_point_final_error (fun x => x + 1) 0 (1 # 2) 2%Z 2 0).
  reflexivity.
Defined.




(** ** The bracketing methods *)

Lemma between_distance (a b c : Q) :
  between a b c ->
  Qabs (c - a) <= Qabs (b - a) /\ Qabs (c - b) <= Qabs (b - a).
Proof.
  intros [[H1 H2]|[H1 H2]]; split;
    apply Qabs_case; intros; apply Qabs_case; intros; lra.
Qed.

Lemma midpoint_between (a b : Q) : between a b ((a + b) / 2).
Proof.
  assert (E : (a + b) / 2 == (a + b) * (1 # 2)) by field.
  unfold between. rewrite E.
  destruct (Qlt_le_dec a b); [left|right]; split; lra.
Qed.

(** The point of false position lies between the endpoints when the
    function changes sign over them. *)
Lemma regula_falsi_point_between (f : Q -> Q) (a b : Q) :
  f a * f b < 0 -> between a b (regula_falsi_point f a b).
Proof.
  intros H.
  assert (Hd : ~ f b - f a == 0).
  { intro E. assert (E' : f b == f a) by lra. rewrite E' in H. nra. }
  assert (E : regula_falsi_point f a b * (f b - f a)
              == a * f b - b * f a).
  { unfold regula_falsi_point. field. exact Hd. }
  unfold between.
  destruct (Qlt_le_dec a b); destruct (Qlt_le_dec (f a) 0);
    destruct (Qlt_le_dec (f b) 0); try (exfalso; nra).
  - left. split; nra.
  - left. split; nra.
  - right. split; nra.
  - right. split; nra.
Qed.

Lemma bracket_step_moves (f : Q -> Q) (tol : Q) (i : Z)
      (s s' : bracket_frame) (c : Q) :
  bracket_step f tol i s c = Continue s' ->
  br_c s' = Some c
  /\ br_iterations s'
     = br_iterations s
         ++ [Iteration (i + 1) c (f c) (Qabs (br_b s - br_a s))]
  /\ ((br_a s' = br_a s /\ br_b s' = c)
      \/ (br_a s' = c /\ br_b s' = br_b s)).
Proof.
  intro H. unfold bracket_step in H. split_body H;
    injection H as <-; cbn [br_a br_b br_c br_iterations];
    (split; [reflexivity|]); (split; [reflexivity|]);
    [left|right]; now split.
Qed.

Lemma bracket_step_returns (f : Q -> Q) (tol : Q) (i : Z)
      (s : bracket_frame) (c : Q) (r : run_result) :
  bracket_step f tol i s c = Return r ->
  r = (Some c, Some (Qabs (br_b s - br_a s)),
       Some (br_iterations s
               ++ [Iteration (i + 1) c (f c) (Qabs (br_b s - br_a s))])).
Proof.
  intro H. unfold bracket_step in H. split_body H.
  now injection H as <-.
Qed.

Lemma bracket_return_inv (s : bracket_frame) (root err : Q)
      (log : list iteration) :
  bracket_return s = Returned (Some root, Some err, Some log) ->
  br_c s = Some root /\ err = Qabs (br_b s - br_a s)
  /\ log = br_iterations s.
Proof.
  unfold bracket_return. destruct (br_c s); [|discriminate].
  intro H. now injection H as <- <- <-.
Qed.

Section BracketRuns.

Variables (f : Q -> Q) (tol : Q).
Variable body : Z -> bracket_frame -> ctl bracket_frame run_result.
Variable P : bracket_frame -> Prop.

(** In a frame with [P] the pass picks a point between the endpoints
    and goes on as [bracket_step]; [P] is kept by the replacement. *)
Hypothesis body_is_step :
  forall i s, P s ->
    exists c, between (br_a s) (br_b s) c
              /\ body i s = bracket_step f tol i s c.
Hypothesis P_kept :
  forall i s s' c, P s -> bracket_step f tol i s c = Continue s' -> P s'.

(** Every estimate stays inside the interval the call started from. *)
Lemma bracket_run_inside (a0 b0 : Q) (n : nat) (s0 : bracket_frame)
      (root err : Q) (log : list iteration) :
  P s0 -> a0 <= br_a s0 -> br_a s0 <= br_b s0 -> br_b s0 <= b0 ->
  br_c s0 = None -> br_iterations s0 = [] ->
  fall_through bracket_return (for_range body n 0%Z s0)
  = Returned (Some root, Some err, Some log) ->
  (a0 <= root /\ root <= b0)
  /\ Forall (fun r => a0 <= estimate r /\ estimate r <= b0) log.
Proof.
  intros HP Ha Hab Hb Hc Hl H.
  set (Inv := fun (_ : nat) (s : bracket_frame) =>
                P s /\ a0 <= br_a s /\ br_a s <= br_b s /\ br_b s <= b0
                /\ Forall (fun r => a0 <= estimate r /\ estimate r <= b0)
                          (br_iterations s)
                /\ forall c, br_c s = Some c -> a0 <= c /\ c <= b0).
  set (Post := fun (_ : nat) (r : run_result) =>
                 forall root err log,
                   r = (Some root, Some err, Some log) ->
                   (a0 <= root /\ root <= b0)
                   /\ Forall (fun r => a0 <= estimate r
                                       /\ estimate r <= b0) log).
  refine (fall_through_rule body bracket_return Inv Post _ _ _ _ _ _ _ H
            root err log eq_refl).
  - intros k s s' (HPs & H1 & H2 & H3 & HF & _) Hs.
    destruct (body_is_step (Z.of_nat k) s HPs) as (c & Hbt & Hbody).
    rewrite Hbody in Hs.
    assert (Hc' : a0 <= c /\ c <= b0)
      by (destruct Hbt as [[? ?]|[? ?]]; split; lra).
    pose proof (P_kept _ _ _ _ HPs Hs) as HP'.
    apply bracket_step_moves in Hs.
    destruct Hs as (Hcs & Hls & Hends). unfold Inv.
    rewrite Hcs, Hls. split; [exact HP'|].
    assert (Hbt' : br_a s <= c /\ c <= br_b s)
      by (destruct Hbt as [[? ?]|[? ?]]; split; lra).
    destruct Hends as [[-> ->]|[-> ->]].
    + repeat split; try lra.
      * apply Forall_app. split; [exact HF|].
        constructor; [exact Hc'|constructor].
      * injection H0 as <-. lra.
      * injection H0 as <-. lra.
    + repeat split; try lra.
      * apply Forall_app. split; [exact HF|].
        constructor; [exact Hc'|constructor].
      * injection H0 as <-. lra.
      * injection H0 as <-. lra.
  - intros k s r (HPs & H1 & H2 & H3 & HF & _) Hs root' err' log' Hr.
    destruct (body_is_step (Z.of_nat k) s HPs) as (c & Hbt & Hbody).
    rewrite Hbody in Hs. apply bracket_step_returns in Hs.
    rewrite Hs in Hr. injection Hr as <- <- <-.
    assert (Hc' : a0 <= c /\ c <= b0)
      by (destruct Hbt as [[? ?]|[? ?]]; split; lra).
    split; [exact Hc'|]. apply Forall_app. split; [exact HF|].
    constructor; [exact Hc'|constructor].
  - intros k s r (_ & _ & _ & _ & HF & Hcur) Hs root' err' log' Hr.
    subst r. apply bracket_return_inv in Hs.
    destruct Hs as (Hcs & _ & ->). split; [now apply Hcur|exact HF].
  - unfold Inv. rewrite Hc, Hl.
    repeat split; try assumption; try constructor; discriminate.
Qed.

End BracketRuns.

Section BracketEnclosure.

Variables (f : Q -> Q) (tol : Q).
Hypothesis tol_pos : 0 < tol.
Variable body : Z -> bracket_frame -> ctl bracket_frame run_result.

Hypothesis body_is_step :
  forall i s, bracketed f s ->
    exists c, between (br_a s) (br_b s) c
              /\ body i s = bracket_step f tol i s c.

(** What is returned is backed by the bracket the loop holds. *)
Lemma bracket_run_encloses (n : nat) (s0 : bracket_frame)
      (root err : Q) (log : list iteration) :
  bracketed f s0 -> br_c s0 = None ->
  fall_through bracket_return (for_range body n 0%Z s0)
  = Returned (Some root, Some err, Some log) ->
  encloses f root err.
Proof.
  intros Hbr Hc H.
  set (Inv := fun (_ : nat) (s : bracket_frame) =>
                bracketed f s
                /\ forall c, br_c s = Some c ->
                             c = br_a s \/ c = br_b s).
  set (Post := fun (_ : nat) (r : run_result) =>
                 forall root err log,
                   r = (Some root, Some err, Some log) ->
                   encloses f root err).
  refine (fall_through_rule body bracket_return Inv Post _ _ _ _ _ _ _ H
            root err log eq_refl).
  - intros k s s' [Hs _] Hb.
    destruct (body_is_step (Z.of_nat k) s Hs) as (c & _ & Hbody).
    rewrite Hbody in Hb. split.
    + exact (bracket_step_bracketed f tol tol_pos _ _ _ _ Hs Hb).
    + apply bracket_step_moves in Hb.
      destruct Hb as (Hcs & _ & [[_ ->]|[-> _]]); rewrite Hcs;
        intros c' Hc'; injection Hc' as <-; [now right|now left].
  - intros k s r [Hs _] Hb root' err' log' Hr.
    destruct (body_is_step (Z.of_nat k) s Hs) as (c & Hbt & Hbody).
    rewrite Hbody in Hb. apply bracket_step_returns in Hb.
    rewrite Hb in Hr. injection Hr as <- <- <-.
    exists (br_a s), (br_b s). split; [exact Hs|].
    exact (between_distance _ _ _ Hbt).
  - intros k s r [Hs Hcur] Ha root' err' log' Hr. subst r.
    apply bracket_return_inv in Ha. destruct Ha as (Hcs & -> & _).
    exists (br_a s), (br_b s). split; [exact Hs|].
    destruct (Hcur _ Hcs) as [->| ->].
    + split; [rewrite Qabs_self; apply Qabs_nonneg|].
      rewrite Qabs_Qminus. apply Qle_refl.
    + split; [apply Qle_refl|].
      rewrite Qabs_self. apply Qabs_nonneg.
  - split; [exact Hbr|]. rewrite Hc. discriminate.
Qed.

End BracketEnclosure.

Lemma bisection_body_is_step (f : Q -> Q) (tol : Q) (i : Z)
      (s : bracket_frame) :
  exists c, between (br_a s) (br_b s) c
            /\ bisection_body f tol i s = bracket_step f tol i s c.
Proof.
  exists ((br_a s + br_b s) / 2).
  split; [apply midpoint_between|reflexivity].
Qed.

Lemma regula_falsi_body_is_step (f : Q -> Q) (tol : Q) (i : Z)
      (s : bracket_frame) :
  bracketed f s ->
  exists c, between (br_a s) (br_b s) c
            /\ regula_falsi_body f tol i s = bracket_step f tol i s c.
Proof.
  intro Hbr. exists (regula_falsi_point f (br_a s) (br_b s)).
  split; [now apply regula_falsi_point_between|].
  unfold regula_falsi_body. cbv beta zeta.
  now rewrite truediv_nonzero by exact (bracketed_denominator f s Hbr).
Qed.

(** X8. In exact arithmetic and for handles that return a finite
    Python float on every input: with [tol > 0], the root and the error
    [bisection] and [regula_falsi] return are backed by a sign change:
    there are two points at which [f] has opposite signs, both within
    the returned error of the returned root.  This holds for a result
    that met the tolerance and for one returned when [max_iter] ran
    out. *)
Theorem bracketing_result_enclosed :
  (forall f a b tol max_iter root err log,
      0 < tol ->
      value (bisection f a b tol max_iter)
      = Returned (Some root, Some err, Some log) ->
      encloses f root err)
  /\ (forall f a b tol max_iter root err log,
         0 < tol ->
         value (regula_falsi f a b tol max_iter)
         = Returned (Some root, Some err, Some log) ->
         encloses f root err).
Proof.
  split; intros f a b tol max_iter root err log Htol H.
  - apply bisection_ran in H. destruct H as [Hbr H].
    exact (bracket_run_encloses f tol Htol (bisection_body f tol)
             (fun i s _ => bisection_body_is_step f tol i s)
             (Z.to_nat max_iter) (bracket_init a b) root err log
             Hbr eq_refl H).
  - apply regula_falsi_ran in H. destruct H as [Hbr H].
    exact (bracket_run_encloses f tol Htol (regula_falsi_body f tol)
             (regula_falsi_body_is_step f tol)
             (Z.to_nat max_iter) (bracket_init a b) root err log
             Hbr eq_refl H).
Qed.

Lemma bracketing_result_enclosed_witness :
  encloses square_minus_two (3 # 2) (1 # 2).
Proof.
  apply (proj1 bracketing_result_enclosed square_minus_two 1 2
               (1 # 1000000) 1%Z (3 # 2) (1 # 2)
               [Iteration 1 (3 # 2) (1 # 4) 1]).
  - reflexivity.
  - reflexivity.
Defined.

(** X9. In exact arithmetic and for handles that return a finite
    Python float on every input: started on [a <= b], [bisection] never
    leaves [[a, b]]: the root it returns and every estimate in its log
    lie in the interval.  The same holds for [regula_falsi] when
    [tol > 0]. *)
Theorem bracketing_estimates_inside :
  (forall f a b tol max_iter root err log,
      a <= b ->
      value (bisection f a b tol max_iter)
      = Returned (Some root, Some err, Some log) ->
      (a <= root /\ root <= b)
      /\ Forall (fun r => a <= estimate r /\ estimate r <= b) log)
  /\ (forall f a b tol max_iter root err log,
         a <= b -> 0 < tol ->
         value (regula_falsi f a b tol max_iter)
         = Returned (Some root, Some err, Some log) ->
         (a <= root /\ root <= b)
         /\ Forall (fun r => a <= estimate r /\ estimate r <= b) log).
Proof.
  split.
  - intros f a b tol max_iter root err log Hab H.
    apply bisection_ran in H. destruct H as [_ H].
    refine (bracket_run_inside f tol (bisection_body f tol)
              (fun _ => True)
              (fun i s _ => bisection_body_is_step f tol i s)
              (fun _ _ _ _ _ _ => I)
              a b (Z.to_nat max_iter) (bracket_init a b) root err log
              I _ Hab _ eq_refl eq_refl H); apply Qle_refl.
  - intros f a b tol max_iter root err log Hab Htol H.
    apply regula_falsi_ran in H. destruct H as [Hbr H].
    refine (bracket_run_inside f tol (regula_falsi_body f tol)
              (bracketed f)
              (regula_falsi_body_is_step f tol)
              (fun i s s' c => bracket_step_bracketed f tol Htol i s s' c)
              a b (Z.to_nat max_iter) (bracket_init a b) root err log
              Hbr _ Hab _ eq_refl eq_refl H); apply Qle_refl.
Qed.

Lemma bracketing_estimates_inside_witness :
  (0 <= 0x0.6%xQ /\ 0x0.6%xQ <= 1)
  /\ Forall (fun r => 0 <= estimate r /\ estimate r <= 1)
            [Iteration 1 (1 # 2) (2 # 2) 1;
             Iteration 2 (1 # 4) (-4 # 4) (1 # 2);
             Iteration 3 0x0.6%xQ 0x0.0%xQ (2 # 8)].
Proof.
  apply (proj1 bracketing_estimates_inside steep 0 1 (1 # 2) 100%Z
               0x0.6%xQ (2 # 8)).
  - vm_compute. discriminate.
  - reflexivity.
Defined.

(** X10. In exact arithmetic and for handles that return a finite
    Python float on every input, the error [bisection] returns, in
    closed form: when the returned root meets the tolerance, the width
    of the bracket before its last halving, [|b - a| / 2^(n-1)] for a
    log of [n] entries; when [max_iter] ran out, the width after the
    last halving, [|b - a| / 2^max_iter]. *)
Theorem bisection_final_error (f : Q -> Q) (a b tol : Q) (max_iter : Z)
        (root err : Q) (log : list iteration) :
  value (bisection f a b tol max_iter)
  = Returned (Some root, Some err, Some log) ->
  (Qabs (f root) < tol
   /\ err * inject_Z (2 ^ (Z.of_nat (List.length log) - 1))
      == Qabs (b - a))
  \/ (tol <= Qabs (f root)
      /\ Z.of_nat (List.length log) = max_iter
      /\ err * inject_Z (2 ^ max_iter) == Qabs (b - a)).
Proof.
  unfold bisection. destruct (Py.ge (f a * f b) 0); [discriminate|].
  unfold of_outcome. cbn [value].
  destruct (bisection_loop_cases f a b tol (Z.to_nat max_iter))
    as [[-> Hno]|(k & Hk & -> & Hs & _)]; cbn [fall_through].
  - unfold bracket_return, bisection_frame.
    cbn [br_a br_b br_c br_iterations].
    destruct (Z.to_nat max_iter) as [|n] eqn:En; [discriminate|].
    intro H. injection H as <- <- <-. right.
    rewrite bisection_log_length.
    assert (Hn : Z.of_nat (Datatypes.S n) = max_iter) by lia.
    split; [|split; [exact Hn|]].
    + apply lt_false. apply (Hno n). lia.
    + rewrite <- Hn. exact (width_after f a b (Datatypes.S n)).
  - unfold bisection_hit. intro H. injection H as <- <- <-. left.
    split; [now apply lt_true|].
    rewrite bisection_log_length.
    replace (Z.of_nat (Datatypes.S k) - 1)%Z with (Z.of_nat k) by lia.
    exact (width_after f a b k).
Qed.

Lemma bisection_final_error_witness :
  (Qabs (steep 0x0.6%xQ) < 1 # 2
   /\ (2 # 8) * inject_Z (2 ^ (Z.of_nat 3 - 1)) == Qabs (1 - 0))
  \/ (1 # 2 <= Qabs (steep 0x0.6%xQ)
      /\ Z.of_nat 3 = 100%Z
      /\ (2 # 8) * inject_Z (2 ^ 100) == Qabs (1 - 0)).
Proof.
  apply (bisection_final_error steep 0 1 (1 # 2) 100%Z 0x0.6%xQ (2 # 8)
           [Iteration 1 (1 # 2) (2 # 2) 1;
            Iteration 2 (1 # 4) (-4 # 4) (1 # 2);
            Iteration 3 0x0.6%xQ 0x0.0%xQ (2 # 8)]).
  reflexivity.
Defined.

(** ** Calls that cannot fail, and calls that must *)

(** X11. In exact arithmetic and for handles that return a finite
    Python float on every input (and raise nothing themselves): with
    [max_iter >= 1], [bisection] on a bracket with [f(a) * f(b) < 0],
    [regula_falsi] on such a bracket with [tol > 0], and
    [fixed_point_iteration] from any guess raise nothing and print
    nothing: each returns a full triple. *)
Theorem calls_that_always_return :
  (forall f a b tol max_iter,
      f a * f b < 0 -> (1 <= max_iter)%Z ->
      exists root err log,
        bisection f a b tol max_iter
        = Eff [] (Returned (Some root, Some err, Some log)))
  /\ (forall f a b tol max_iter,
         f a * f b < 0 -> 0 < tol -> (1 <= max_iter)%Z ->
         exists root err log,
           regula_falsi f a b tol max_iter
           = Eff [] (Returned (Some root, Some err, Some log)))
  /\ (forall g x0 tol max_iter,
         (1 <= max_iter)%Z ->
         exists root err log,
           fixed_point_iteration g x0 tol max_iter
           = Eff [] (Returned (Some root, Some err, Some log))).
Proof.
  split; [|split].
  - intros f a b tol max_iter Hbr Hmax. unfold bisection.
    apply ge_false in Hbr. rewrite Hbr. unfold of_outcome.
    destruct (bisection_loop_cases f a b tol (Z.to_nat max_iter))
      as [[-> _]|(k & _ & -> & _)]; cbn [fall_through].
    + unfold bracket_return, bisection_frame. cbn [br_c].
      destruct (Z.to_nat max_iter) eqn:E; [lia|]. now eexists _, _, _.
    + unfold bisection_hit. now eexists _, _, _.
  - intros f a b tol max_iter Hbr Htol Hmax. unfold regula_falsi.
    pose proof Hbr as Hge. apply ge_false in Hge. rewrite Hge.
    unfold of_outcome.
    pose proof (run_ends _ _ _ _ _ _ _ _ (regula_falsi_pass_ok f tol)
                  (Z.to_nat max_iter) (bracket_init a b)
                  eq_refl eq_refl) as He.
    pose proof (for_range_safe (regula_falsi_body f tol)
                  (fun _ st => bracketed f st)
                  (fun k s s' =>
                     regula_falsi_body_bracketed f tol Htol k s s')
                  (fun k s e' => regula_falsi_body_no_raise f tol k s e')
                  (Z.to_nat max_iter) O (bracket_init a b)) as Hsafe.
    change (Z.of_nat 0) with 0%Z in Hsafe.
    destruct (for_range (regula_falsi_body f tol) (Z.to_nat max_iter)
                        0%Z (bracket_init a b)) as [s|r|e];
      cbn [fall_through].
    + destruct He as (_ & _ & [[E _]|(sp & x & Hcur & _)]); [lia|].
      unfold bracket_return. rewrite Hcur. now eexists _, _, _.
    + destruct He as (_ & sp & x & lg & -> & _). now eexists _, _, _.
    + destruct (Hsafe e Hbr eq_refl).
  - intros g x0 tol max_iter Hmax. unfold fixed_point_iteration.
    unfold of_outcome.
    pose proof (run_ends _ _ _ _ _ _ _ _
                  (fixed_point_iteration_pass_ok g tol)
                  (Z.to_nat max_iter) (point_init x0)
                  eq_refl eq_refl) as He.
    destruct (for_range (fixed_point_iteration_body g tol)
                        (Z.to_nat max_iter) 0%Z (point_init x0))
      as [s|r|e]; cbn [fall_through].
    + destruct He as (_ & _ & [[E _]|(sp & x & Hcur & _)]); [lia|].
      unfold point_return. rewrite Hcur. now eexists _, _, _.
    + destruct He as (_ & sp & x & lg & -> & _). now eexists _, _, _.
    + destruct He as (_ & s & []).
Qed.

Lemma calls_that_always_return_witness :
  exists root err log,
    regula_falsi square_minus_two 1 2 (1 # 1000000) 1
    = Eff [] (Returned (Some root, Some err, Some log)).
Proof.
  apply (proj1 (proj2 calls_that_always_return)
               square_minus_two 1 2 (1 # 1000000) 1%Z).
  - reflexivity.
  - reflexivity.
  - lia.
Defined.

(** X1. With [max_iter <= 0] the loop body never runs and the statement
    after the loop reads a variable that was never assigned: the four
    open methods raise [UnboundLocalError] on any input, and so do
    [bisection] and [regula_falsi] once the bracket test has passed. *)
Theorem empty_range_raises (max_iter : Z) :
  (max_iter <= 0)%Z ->
  (forall f a b tol,
      f a * f b < 0 ->
      bisection f a b tol max_iter = Eff [] (Raised UnboundLocalError)
      /\ regula_falsi f a b tol max_iter
         = Eff [] (Raised UnboundLocalError))
  /\ (forall f x0 x1 tol,
         secant f x0 x1 tol max_iter = Eff [] (Raised UnboundLocalError))
  /\ (forall f df x0 tol,
         newton_raphson f df x0 tol max_iter
         = Eff [] (Raised UnboundLocalError))
  /\ (forall g x0 tol,
         fixed_point_iteration g x0 tol max_iter
         = Eff [] (Raised UnboundLocalError))
  /\ (forall f x0 delta tol,
         modified_secant f x0 delta tol max_iter
         = Eff [] (Raised UnboundLocalError)).
Proof.
  intro Hmax.
  assert (E : Z.to_nat max_iter = O) by lia.
  unfold bisection, regula_falsi, secant, newton_raphson,
    fixed_point_iteration, modified_secant.
  rewrite E. split; [|repeat split].
  intros f a b tol Hbr. apply ge_false in Hbr. rewrite Hbr.
  split; reflexivity.
Qed.

Lemma empty_range_raises_witness :
  secant square 0 1 (1 # 1000000) 0 = Eff [] (Raised UnboundLocalError).
Proof.
  apply (proj1 (proj2 (empty_range_raises 0%Z (Z.le_refl 0)))).
Defined.

(** ** Straight lines are solved in one pass *)

Lemma stops_on_zero (y tol : Q) :
  y == 0 -> 0 < tol -> Py.lt (Qabs y) tol = true.
Proof.
  intros Hy Htol. apply lt_true. rewrite Hy. exact Htol.
Qed.

(** X12. In exact arithmetic: on a straight line [m x + q] with [m] not
    zero, [secant] from two distinct guesses returns in its first pass,
    and the root it returns is the zero of the line. *)
Theorem secant_exact_on_lines (m q x0 x1 tol : Q) (max_iter : Z) :
  ~ m == 0 -> ~ x1 == x0 -> 0 < tol -> (1 <= max_iter)%Z ->
  exists root err,
    secant (affine m q) x0 x1 tol max_iter
    = Eff [] (Returned (Some root, Some err,
                        Some [Iteration 1 root (affine m q root) err]))
    /\ affine m q root == 0.
Proof.
  intros Hm Hx Htol Hmax.
  assert (Hd : ~ affine m q x1 - affine m q x0 == 0).
  { unfold affine. intro E. apply Hx.
    assert (E' : m * (x1 - x0) == 0) by lra.
    apply Qmult_integral in E'. destruct E' as [E'|E']; [contradiction|].
    lra. }
  assert (Hroot : affine m q (secant_point (affine m q) x0 x1) == 0).
  { unfold secant_point. unfold affine at 1. unfold affine in Hd |- *.
    field. exact Hd. }
  exists (secant_point (affine m q) x0 x1),
    (Qabs (secant_point (affine m q) x0 x1 - x1)).
  split; [|exact Hroot].
  unfold secant. destruct (Z.to_nat max_iter) as [|n] eqn:E; [lia|].
  cbn [for_range]. unfold secant_body at 1. cbv beta zeta.
  cbn [secant_init sc_x0 sc_x1 sc_iterations].
  rewrite (truediv_nonzero _ _ Hd). unfold Py.bind_ctl.
  fold (secant_point (affine m q) x0 x1).
  rewrite (stops_on_zero _ _ Hroot Htol). reflexivity.
Qed.

Lemma secant_exact_on_lines_witness :
  exists root err,
    secant (affine 8 (-3)) 0 1 (1 # 1000000) 100
    = Eff [] (Returned (Some root, Some err,
                        Some [Iteration 1 root (affine 8 (-3) root) err]))
    /\ affine 8 (-3) root == 0.
Proof.
  apply (secant_exact_on_lines 8 (-3) 0 1 (1 # 1000000) 100%Z).
  - vm_compute. discriminate.
  - vm_compute. discriminate.
  - reflexivity.
  - lia.
Defined.

(** X13. In exact arithmetic: on a straight line [m x + q] with [m] not
    zero, given a derivative whose value at [x0] is [m],
    [newton_raphson] returns in its first pass, and the root it returns
    is the zero of the line. *)
Theorem newton_raphson_exact_on_lines (m q x0 tol : Q) (df : Q -> Q)
        (max_iter : Z) :
  ~ m == 0 -> df x0 == m -> 0 < tol -> (1 <= max_iter)%Z ->
  exists root err,
    newton_raphson (affine m q) df x0 tol max_iter
    = Eff [] (Returned (Some root, Some err,
                        Some [Iteration 1 root (affine m q root) err]))
    /\ affine m q root == 0.
Proof.
  intros Hm Hdf Htol Hmax.
  assert (Hd : ~ df x0 == 0) by (rewrite Hdf; exact Hm).
  assert (Hroot : affine m q (newton_raphson_point (affine m q) df x0) == 0).
  { unfold newton_raphson_point, affine. rewrite Hdf. field. exact Hm. }
  exists (newton_raphson_point (affine m q) df x0),
    (Qabs (newton_raphson_point (affine m q) df x0 - x0)).
  split; [|exact Hroot].
  unfold newton_raphson.
  destruct (Z.to_nat max_iter) as [|n] eqn:E; [lia|].
  cbn [for_range]. unfold newton_raphson_body at 1. cbv beta zeta.
  cbn [point_init pt_x0 pt_iterations].
  rewrite (truediv_nonzero _ _ Hd). unfold Py.bind_ctl.
  fold (newton_raphson_point (affine m q) df x0).
  rewrite (stops_on_zero _ _ Hroot Htol). reflexivity.
Qed.

Lemma newton_raphson_exact_on_lines_witness :
  exists root err,
    newton_raphson (affine 8 (-3)) (fun _ => 8) 1 (1 # 1000000) 100
    = Eff [] (Returned (Some root, Some err,
                        Some [Iteration 1 root (affine 8 (-3) root) err]))
    /\ affine 8 (-3) root == 0.
Proof.
  apply (newton_raphson_exact_on_lines 8 (-3) 1 (1 # 1000000)
           (fun _ => 8) 100%Z).
  - vm_compute. discriminate.
  - reflexivity.
  - reflexivity.
  - lia.
Defined.

(** X14. In exact arithmetic: on a straight line that changes sign over
    [[a, b]], [regula_falsi] returns in its first pass: the point of
    false position is the zero of the line, and the error returned is
    the width of the starting bracket. *)
Theorem regula_falsi_exact_on_lines (m q a b tol : Q) (max_iter : Z) :
  affine m q a * affine m q b < 0 -> 0 < tol -> (1 <= max_iter)%Z ->
  exists root,
    regula_falsi (affine m q) a b tol max_iter
    = Eff [] (Returned (Some root, Some (Qabs (b - a)),
                        Some [Iteration 1 root (affine m q root)
                                        (Qabs (b - a))]))
    /\ affine m q root == 0.
Proof.
  intros Hbr Htol Hmax.
  assert (Hd : ~ affine m q b - affine m q a == 0)
    by exact (bracketed_denominator (affine m q) (bracket_init a b) Hbr).
  assert (Hroot : affine m q (regula_falsi_point (affine m q) a b) == 0).
  { unfold regula_falsi_point. unfold affine at 1. unfold affine in Hd |- *.
    field. exact Hd. }
  exists (regula_falsi_point (affine m q) a b).
  split; [|exact Hroot].
  unfold regula_falsi. pose proof Hbr as Hge. apply ge_false in Hge.
  rewrite Hge.
  destruct (Z.to_nat max_iter) as [|n] eqn:E; [lia|].
  cbn [for_range]. unfold regula_falsi_body at 1. cbv beta zeta.
  cbn [bracket_init br_a br_b br_iterations].
  rewrite (truediv_nonzero _ _ Hd). unfold Py.bind_ctl.
  fold (regula_falsi_point (affine m q) a b).
  unfold bracket_step. cbv beta zeta.
  cbn [bracket_init br_a br_b br_iterations].
  rewrite (stops_on_zero _ _ Hroot Htol). reflexivity.
Qed.

Lemma regula_falsi_exact_on_lines_witness :
  exists root,
    regula_falsi (affine 8 (-3)) 0 1 (1 # 1000000) 100
    = Eff [] (Returned (Some root, Some (Qabs (1 - 0)),
                        Some [Iteration 1 root (affine 8 (-3) root)
                                        (Qabs (1 - 0))]))
    /\ affine 8 (-3) root == 0.
Proof.
  apply (regula_falsi_exact_on_lines 8 (-3) 0 1 (1 # 1000000) 100%Z).
  - reflexivity.
  - reflexivity.
  - lia.
Defined.

(** X15. In exact arithmetic: on a straight line [m x + q] with [m] not
    zero, [modified_secant] from a guess with [delta * x0] not zero
    returns in its first pass, and the root it returns is the zero of
    the line. *)
Theorem modified_secant_exact_on_lines (m q x0 delta tol : Q)
        (max_iter : Z) :
  ~ m == 0 -> ~ delta * x0 == 0 -> 0 < tol -> (1 <= max_iter)%Z ->
  exists root err,
    modified_secant (affine m q) x0 delta tol max_iter
    = Eff [] (Returned (Some root, Some err,
                        Some [Iteration 1 root (affine m q root) err]))
    /\ affine m q root == 0.
Proof.
  intros Hm Hdx Htol Hmax.
  assert (Hd : ~ affine m q (x0 + delta * x0) - affine m q x0 == 0).
  { unfold affine. intro E. apply Hdx.
    assert (E' : m * (delta * x0) == 0) by lra.
    apply Qmult_integral in E'. destruct E' as [E'|E']; [contradiction|].
    exact E'. }
  assert (Hroot : affine m q (modified_secant_point (affine m q) delta x0)
                  == 0).
  { unfold modified_secant_point. unfold affine at 1.
    unfold affine in Hd |- *. field. exact Hd. }
  exists (modified_secant_point (affine m q) delta x0),
    (Qabs (modified_secant_point (affine m q) delta x0 - x0)).
  split; [|exact Hroot].
  unfold modified_secant.
  destruct (Z.to_nat max_iter) as [|n] eqn:E; [lia|].
  cbn [for_range]. unfold modified_secant_body at 1. cbv beta zeta.
  cbn [point_init pt_x0 pt_iterations].
  rewrite (truediv_nonzero _ _ Hd). unfold Py.bind_ctl.
  fold (modified_secant_point (affine m q) delta x0).
  rewrite (stops_on_zero _ _ Hroot Htol). reflexivity.
Qed.

Lemma modified_secant_exact_on_lines_witness :
  exists root err,
    modified_secant (affine 8 (-3)) 1 (1 # 100) (1 # 1000000) 100
    = Eff [] (Returned (Some root, Some err,
                        Some [Iteration 1 root (affine 8 (-3) root) err]))
    /\ affine 8 (-3) root == 0.
Proof.
  apply (modified_secant_exact_on_lines 8 (-3) 1 (1 # 100)
           (1 # 1000000) 100%Z).
  - vm_compute. discriminate.
  - vm_compute. discriminate.
  - reflexivity.
  - lia.
Defined.

(** ** The command-line script *)

Lemma complain_tidy (s : string) : tidy (complain s).
Proof. left. now exists s. Qed.

(** A loop of the common shape, run from an empty log, is tidy. *)
Lemma run_tidy {S : Type} (log : S -> list iteration)
      (cur : S -> option Q) (fault : S -> Prop) (next : S -> Q -> Prop)
      (res : Q -> Q) (err : S -> Q -> Q) (stop : S -> Q -> bool)
      (body : Z -> S -> ctl S run_result)
      (after : S -> outcome run_result) (n : nat) (s0 : S) :
  pass_ok log cur fault next res err stop body ->
  after_ok log cur after ->
  log s0 = [] -> cur s0 = None ->
  tidy (of_outcome (fall_through after (for_range body n 0%Z s0))).
Proof.
  intros Hb Ha H0 Hc.
  destruct (fall_through after (for_range body n 0%Z s0)) as [r|e] eqn:E.
  - destruct (run_returns _ _ _ _ _ _ _ _ _ Hb Ha n s0 r H0 Hc E)
      as (root & e & lg & t & sp & -> & _ & Hlast & _).
    destruct Hlast as (_ & _ & (l & Hl) & _).
    right. right. exists root, e, lg. split; [reflexivity|].
    eexists l, _. split; [exact Hl|reflexivity].
  - right. left. now exists e.
Qed.

Section SolversTidy.

Variables (f df g : Q -> Q) (tol delta : Q) (max_iter : Z).

Lemma bisection_tidy (a b : Q) : tidy (bisection f a b tol max_iter).
Proof.
  unfold bisection. destruct (Py.ge (f a * f b) 0).
  - left. now eexists.
  - exact (run_tidy _ _ _ _ _ _ _ _ _
             (Z.to_nat max_iter) (bracket_init a b)
             (bisection_pass_ok f tol) bracket_return_ok
             eq_refl eq_refl).
Qed.

Lemma regula_falsi_tidy (a b : Q) :
  tidy (regula_falsi f a b tol max_iter).
Proof.
  unfold regula_falsi. destruct (Py.ge (f a * f b) 0).
  - left. now eexists.
  - exact (run_tidy _ _ _ _ _ _ _ _ _
             (Z.to_nat max_iter) (bracket_init a b)
             (regula_falsi_pass_ok f tol) bracket_return_ok
             eq_refl eq_refl).
Qed.

Lemma secant_tidy (x0 x1 : Q) : tidy (secant f x0 x1 tol max_iter).
Proof.
  exact (run_tidy _ _ _ _ _ _ _ _ _
             (Z.to_nat max_iter) (secant_init x0 x1)
             (secant_pass_ok f tol) secant_return_ok
             eq_refl eq_refl).
Qed.

Lemma newton_raphson_tidy (x0 : Q) :
  tidy (newton_raphson f df x0 tol max_iter).
Proof.
  exact (run_tidy _ _ _ _ _ _ _ _ _
             (Z.to_nat max_iter) (point_init x0)
             (newton_raphson_pass_ok f df tol) point_return_ok
             eq_refl eq_refl).
Qed.

Lemma fixed_point_iteration_tidy (x0 : Q) :
  tidy (fixed_point_iteration g x0 tol max_iter).
Proof.
  exact (run_tidy _ _ _ _ _ _ _ _ _
             (Z.to_nat max_iter) (point_init x0)
             (fixed_point_iteration_pass_ok g tol) point_return_ok
             eq_refl eq_refl).
Qed.

Lemma modified_secant_tidy (x0 : Q) :
  tidy (modified_secant f x0 delta tol max_iter).
Proof.
  exact (run_tidy _ _ _ _ _ _ _ _ _
             (Z.to_nat max_iter) (point_init x0)
             (modified_secant_pass_ok f tol delta) point_return_ok
             eq_refl eq_refl).
Qed.

End SolversTidy.

Lemma dispatch_tidy (args : cli_args) : tidy (dispatch args).
Proof.
  unfold dispatch.
  destruct (arg_method args);
    destruct (arg_params args) as [|p1 [|p2 [|p3 ps]]];
    try apply complain_tidy.
  - apply bisection_tidy.
  - apply regula_falsi_tidy.
  - apply secant_tidy.
  - destruct (arg_df args); [apply newton_raphson_tidy|
                              apply complain_tidy].
  - destruct (arg_g args); [apply fixed_point_iteration_tidy|
                             apply complain_tidy].
  - apply modified_secant_tidy.
Qed.

(** X16. Once [parse_args] has accepted the command line (so that
    [params] holds at least one number), in exact arithmetic and for
    handles that return a finite Python float on every input, the rest
    of the script ends in one of three ways: it prints one message line
    and exits normally; or it prints nothing and dies of an uncaught
    exception; or the solver returned a full triple and it prints
    exactly one report: title, header, one row per log entry, the root
    (which is the estimate of the last row), the error, and a count
    equal to the number of rows. *)
Theorem main_outcomes (args : cli_args) :
  arg_params args <> [] ->
  (exists s, main args = Eff [Text s] (Returned tt))
  \/ (exists e, main args = Eff [] (Raised e))
  \/ (exists root err log,
         dispatch args = Eff [] (Returned (Some root, Some err, Some log))
         /\ last_estimate log root
         /\ main args
            = Eff (report_lines (arg_method args) root err log)
                  (Returned tt)).
Proof.
  intros _. unfold main.
  destruct (dispatch_tidy args)
    as [(s & ->)|[(e & ->)|(root & err & log & -> & Hlast)]].
  - left. now exists s.
  - right. left. now exists e.
  - right. right. exists root, err, log.
    split; [reflexivity|]. split; [exact Hlast|reflexivity].
Qed.

(** [bisection x*x-2 1 2 --max_iter 1]: a report of one row. *)
Lemma main_outcomes_witness :
  (exists s,
      main (CliArgs Bisection square_minus_two [1; 2] (1 # 1000000) 1
                    (1 # 1000000) None None)
      = Eff [Text s] (Returned tt))
  \/ (exists e,
         main (CliArgs Bisection square_minus_two [1; 2] (1 # 1000000) 1
                       (1 # 1000000) None None)
         = Eff [] (Raised e))
  \/ (exists root err log,
         dispatch (CliArgs Bisection square_minus_two [1; 2]
                           (1 # 1000000) 1 (1 # 1000000) None None)
         = Eff [] (Returned (Some root, Some err, Some log))
         /\ last_estimate log root
         /\ main (CliArgs Bisection square_minus_two [1; 2]
                          (1 # 1000000) 1 (1 # 1000000) None None)
            = Eff (report_lines Bisection root err log) (Returned tt)).
Proof.
  apply (main_outcomes
           (CliArgs Bisection square_minus_two [1; 2] (1 # 1000000) 1
                    (1 # 1000000) None None)).
  discriminate.
Defined.

(** X17. Once [parse_args] has accepted the command line (so that
    [params] holds at least one number): when the number of parameters
    is not the one the method takes, or when Newton-Raphson /
    fixed-point iteration is chosen without its [--df] / [--g]
    expression, the script runs no solver: it prints one message line
    and exits normally, whatever the expression, the tolerance and
    [max_iter] are. *)
Theorem main_usage_errors (args : cli_args) :
  arg_params args <> [] ->
  List.length (arg_params args) <> arity (arg_method args)
  \/ second_expression_given args = false ->
  exists s, main args = Eff [Text s] (Returned tt)
            /\ dispatch args = complain s.
Proof.
  intros _.
  unfold main, dispatch, second_expression_given, arity.
  destruct (arg_method args);
    destruct (arg_params args) as [|p1 [|p2 [|p3 ps]]];
    cbn [List.length]; intros [H|H];
    try (exfalso; apply H; reflexivity);
    try discriminate H;
    try (eexists; split; reflexivity);
    try (destruct (arg_df args); [discriminate H|
                                  eexists; split; reflexivity]);
    try (destruct (arg_g args); [discriminate H|
                                 eexists; split; reflexivity]).
Qed.

Lemma main_usage_errors_witness :
  exists s,
    main (CliArgs NewtonRaphson square_minus_two [1] (1 # 1000000) 100
                  (1 # 1000000) None None)
    = Eff [Text s] (Returned tt)
    /\ dispatch (CliArgs NewtonRaphson square_minus_two [1]
                         (1 # 1000000) 100 (1 # 1000000) None None)
       = complain s.
Proof.
  apply (main_usage_errors
           (CliArgs NewtonRaphson square_minus_two [1] (1 # 1000000) 100
                    (1 # 1000000) None None)).
  - discriminate.
  - right. reflexivity.
Defined.

(** ** The exceptions a solver can raise *)

Lemma run_raises {S : Type} (log : S -> list iteration)
      (cur : S -> option Q) (fault : S -> Prop) (next : S -> Q -> Prop)
      (res : Q -> Q) (err : S -> Q -> Q) (stop : S -> Q -> bool)
      (body : Z -> S -> ctl S run_result)
      (after : S -> outcome run_result) (n : nat) (s0 : S) (e : exn) :
  pass_ok log cur fault next res err stop body ->
  after_ok log cur after ->
  log s0 = [] -> cur s0 = None ->
  fall_through after (for_range body n 0%Z s0) = Raised e ->
  (e = ZeroDivisionError /\ (1 <= n)%nat /\ exists s, fault s)
  \/ (e = UnboundLocalError /\ n = O).
Proof.
  intros Hb Ha H0 Hc H.
  pose proof (run_ends _ _ _ _ _ _ _ _ Hb n s0 H0 Hc) as He.
  destruct n as [|n].
  - simpl in H. pose proof (Ha s0) as Hs. rewrite Hc in Hs.
    rewrite Hs in H. injection H as <-. now right.
  - destruct (for_range body (Datatypes.S n) 0%Z s0) as [s|r|e'];
      simpl in H.
    + destruct He as (_ & _ & [[E _]|(sp & x & Hcur & _)]);
        [discriminate|].
      pose proof (Ha s) as Hs. rewrite Hcur in Hs.
      destruct Hs as (e' & Hs). rewrite Hs in H. discriminate.
    + discriminate.
    + injection H as <-. destruct He as [-> Hf]. left.
      split; [reflexivity|]. split; [lia|exact Hf].
Qed.

(** A loop that failed, failed in a pass entered after some number of
    completed passes. *)
Lemma for_range_failed_inv {S R : Type} (body : Z -> S -> ctl S R)
      (n : nat) (s0 : S) (e : exn) :
  for_range body n 0%Z s0 = Failed e ->
  exists k st,
    (k < n)%nat /\ for_range body k 0%Z s0 = Exhausted st
    /\ body (Z.of_nat k) st = Raise e.
Proof.
  induction n as [|n IH]; [discriminate|].
  replace (Datatypes.S n) with (n + 1)%nat by lia.
  rewrite for_range_app.
  destruct (for_range body n 0%Z s0) as [s|r|e'] eqn:E.
  - cbn [for_range]. change (0 + Z.of_nat n)%Z with (Z.of_nat n).
    destruct (body (Z.of_nat n) s) as [s'|r|e'] eqn:Eb;
      try discriminate.
    intro H. injection H as <-. exists n, s.
    split; [lia|]. split; [exact E|exact Eb].
  - discriminate.
  - intro H. injection H as <-.
    destruct (IH eq_refl) as (k & st & Hk & Hrun & Hb).
    exists k, st. split; [lia|]. split; [exact Hrun|exact Hb].
Qed.

(** The exception of a call, traced to the pass that raised it. *)
Lemma run_raises_at {S : Type} (log : S -> list iteration)
      (cur : S -> option Q) (fault : S -> Prop) (next : S -> Q -> Prop)
      (res : Q -> Q) (err : S -> Q -> Q) (stop : S -> Q -> bool)
      (body : Z -> S -> ctl S run_result)
      (after : S -> outcome run_result) (n : nat) (s0 : S) (e : exn) :
  pass_ok log cur fault next res err stop body ->
  after_ok log cur after ->
  log s0 = [] -> cur s0 = None ->
  fall_through after (for_range body n 0%Z s0) = Raised e ->
  (e = ZeroDivisionError
   /\ exists k st,
       (k < n)%nat /\ for_range body k 0%Z s0 = Exhausted st
       /\ fault st)
  \/ (e = UnboundLocalError /\ n = O).
Proof.
  intros Hb Ha H0 Hc H.
  destruct (run_raises _ _ _ _ _ _ _ _ _ n s0 e Hb Ha H0 Hc H)
    as [(-> & Hn & _)|Hu]; [left|now right].
  split; [reflexivity|].
  destruct (for_range body n 0%Z s0) as [s|r|e'] eqn:E; simpl in H.
  - pose proof (Ha s) as Hs. destruct (cur s).
    + destruct Hs as (x & Hs). rewrite Hs in H. discriminate.
    + rewrite Hs in H. discriminate.
  - discriminate.
  - injection H as ->.
    destruct (for_range_failed_inv body n s0 _ E)
      as (k & st & Hk & Hrun & Hraise).
    exists k, st. split; [exact Hk|]. split; [exact Hrun|].
    pose proof (Hb (Z.of_nat k) st) as Hp. rewrite Hraise in Hp.
    apply Hp.
Qed.

(** X18. In exact arithmetic and for handles that return a finite
    Python float on every input, the only exceptions the six methods
    raise are [ZeroDivisionError] and [UnboundLocalError].  The first
    needs [max_iter >= 1] and comes from a pass, entered after some
    number [k < max_iter] of completed passes, in whose frame the
    denominator of the method is zero; the second needs
    [max_iter <= 0].  [bisection] and [fixed_point_iteration], which
    divide by no variable quantity, raise only the second. *)
Theorem exceptions_raised :
  (forall f a b tol max_iter e,
      value (bisection f a b tol max_iter) = Raised e ->
      e = UnboundLocalError /\ (max_iter <= 0)%Z)
  /\ (forall f a b tol max_iter e,
         value (regula_falsi f a b tol max_iter) = Raised e ->
         (e = ZeroDivisionError /\ (1 <= max_iter)%Z
          /\ exists k st,
              (k < Z.to_nat max_iter)%nat
              /\ for_range (regula_falsi_body f tol) k 0%Z
                           (bracket_init a b) = Exhausted st
              /\ f (br_b st) - f (br_a st) == 0)
         \/ (e = UnboundLocalError /\ (max_iter <= 0)%Z))
  /\ (forall f x0 x1 tol max_iter e,
         value (secant f x0 x1 tol max_iter) = Raised e ->
         (e = ZeroDivisionError /\ (1 <= max_iter)%Z
          /\ exists k st,
              (k < Z.to_nat max_iter)%nat
              /\ for_range (secant_body f tol) k 0%Z (secant_init x0 x1)
                 = Exhausted st
              /\ f (sc_x1 st) - f (sc_x0 st) == 0)
         \/ (e = UnboundLocalError /\ (max_iter <= 0)%Z))
  /\ (forall f df x0 tol max_iter e,
         value (newton_raphson f df x0 tol max_iter) = Raised e ->
         (e = ZeroDivisionError /\ (1 <= max_iter)%Z
          /\ exists k st,
              (k < Z.to_nat max_iter)%nat
              /\ for_range (newton_raphson_body f df tol) k 0%Z
                           (point_init x0) = Exhausted st
              /\ df (pt_x0 st) == 0)
         \/ (e = UnboundLocalError /\ (max_iter <= 0)%Z))
  /\ (forall g x0 tol max_iter e,
         value (fixed_point_iteration g x0 tol max_iter) = Raised e ->
         e = UnboundLocalError /\ (max_iter <= 0)%Z)
  /\ (forall f x0 delta tol max_iter e,
         value (modified_secant f x0 delta tol max_iter) = Raised e ->
         (e = ZeroDivisionError /\ (1 <= max_iter)%Z
          /\ exists k st,
              (k < Z.to_nat max_iter)%nat
              /\ for_range (modified_secant_body f delta tol) k 0%Z
                           (point_init x0) = Exhausted st
              /\ f (pt_x0 st + delta * pt_x0 st) - f (pt_x0 st) == 0)
         \/ (e = UnboundLocalError /\ (max_iter <= 0)%Z)).
Proof.
  split; [|split; [|split; [|split; [|split]]]].
  - intros f a b tol max_iter e H. unfold bisection in H.
    destruct (Py.ge (f a * f b) 0); [discriminate|]. simpl in H.
    destruct (run_raises_at _ _ _ _ _ _ _ _ _ (Z.to_nat max_iter)
                (bracket_init a b) e (bisection_pass_ok f tol)
                bracket_return_ok eq_refl eq_refl H)
      as [(_ & k & st & _ & _ & [])|[-> Hn]].
    split; [reflexivity|lia].
  - intros f a b tol max_iter e H. unfold regula_falsi in H.
    destruct (Py.ge (f a * f b) 0); [discriminate|]. simpl in H.
    destruct (run_raises_at _ _ _ _ _ _ _ _ _ (Z.to_nat max_iter)
                (bracket_init a b) e (regula_falsi_pass_ok f tol)
                bracket_return_ok eq_refl eq_refl H)
      as [(-> & k & st & Hk & Hrun & Hs)|[-> Hn]].
    + left. split; [reflexivity|]. split; [lia|]. now exists k, st.
    + right. split; [reflexivity|lia].
  - intros f x0 x1 tol max_iter e H. unfold secant in H. simpl in H.
    destruct (run_raises_at _ _ _ _ _ _ _ _ _ (Z.to_nat max_iter)
                (secant_init x0 x1) e (secant_pass_ok f tol)
                secant_return_ok eq_refl eq_refl H)
      as [(-> & k & st & Hk & Hrun & Hs)|[-> Hn]].
    + left. split; [reflexivity|]. split; [lia|]. now exists k, st.
    + right. split; [reflexivity|lia].
  - intros f df x0 tol max_iter e H. unfold newton_raphson in H.
    simpl in H.
    destruct (run_raises_at _ _ _ _ _ _ _ _ _ (Z.to_nat max_iter)
                (point_init x0) e (newton_raphson_pass_ok f df tol)
                point_return_ok eq_refl eq_refl H)
      as [(-> & k & st & Hk & Hrun & Hs)|[-> Hn]].
    + left. split; [reflexivity|]. split; [lia|]. now exists k, st.
    + right. split; [reflexivity|lia].
  - intros g x0 tol max_iter e H. unfold fixed_point_iteration in H.
    simpl in H.
    destruct (run_raises_at _ _ _ _ _ _ _ _ _ (Z.to_nat max_iter)
                (point_init x0) e (fixed_point_iteration_pass_ok g tol)
                point_return_ok eq_refl eq_refl H)
      as [(_ & k & st & _ & _ & [])|[-> Hn]].
    split; [reflexivity|lia].
  - intros f x0 delta tol max_iter e H. unfold modified_secant in H.
    simpl in H.
    destruct (run_raises_at _ _ _ _ _ _ _ _ _ (Z.to_nat max_iter)
                (point_init x0) e (modified_secant_pass_ok f tol delta)
                point_return_ok eq_refl eq_refl H)
      as [(-> & k & st & Hk & Hrun & Hs)|[-> Hn]].
    + left. split; [reflexivity|]. split; [lia|]. now exists k, st.
    + right. split; [reflexivity|lia].
Qed.

(** [secant] on [x^2 + 1] from 0 and 1: the exception comes from the
    second pass, entered after one completed pass, in whose frame
    [x0 = 1] and [x1 = -1] have equal function values. *)
Lemma exceptions_raised_witness :
  (ZeroDivisionError = ZeroDivisionError /\ (1 <= 100)%Z
   /\ exists k st,
       (k < Z.to_nat 100)%nat
       /\ for_range (secant_body square_plus_one (1 # 1000000)) k 0%Z
                    (secant_init 0 1) = Exhausted st
       /\ square_plus_one (sc_x1 st) - square_plus_one (sc_x0 st) == 0)
  \/ (ZeroDivisionError = UnboundLocalError /\ (100 <= 0)%Z).
Proof.
  apply (proj1 (proj2 (proj2 exceptions_raised))
               square_plus_one 0 1 (1 # 1000000) 100%Z
               ZeroDivisionError).
  reflexivity.
Defined.

(** ** Starting at the solution *)



(** * NumPy scalars: where the division does not raise *)

(** C7, as stated, fails: with the handle [np.square(x)] and the guesses
    [-1] and [1] the first step of [secant] has [f(x1) == f(x0)], yet no
    [ZeroDivisionError] is raised: the operands of [/] are NumPy
    scalars, the quotient is [inf], the later estimates are [nan], and
    after [max_iter = 100] passes the call returns [(nan, nan, log)]
    with a log of 100 entries.  The same function written [x*x], whose
    values are Python floats, does raise. *)
Lemma secant_numpy_values_not_raised :
  Floats.veqb (Floats.np_square (Floats.py 1))
              (Floats.np_square (Floats.py (-1))) = true
  /\ (exists log,
         Floats.secant Floats.np_square (Floats.py (-1)) (Floats.py 1)
                       (Floats.py (1 # 1000000)) 100
         = Eff [] (Returned (Some Floats.nan_numpy, Some Floats.nan_numpy,
                             Some log))
         /\ List.length log = 100%nat)
  /\ value (Floats.secant Floats.np_square (Floats.py (-1)) (Floats.py 1)
                          (Floats.py (1 # 1000000)) 100)
     <> Raised ZeroDivisionError
  /\ Floats.secant Floats.times_itself (Floats.py (-1)) (Floats.py 1)
                   (Floats.py (1 # 1000000)) 100
     = Eff [] (Raised ZeroDivisionError).
Proof.
  split; [reflexivity|]. split; [|split].
  - eexists. split; [vm_compute; reflexivity|reflexivity].
  - vm_compute. discriminate.
  - reflexivity.
Qed.

(** C9, as stated, fails: with the handle [np.square(x) - 2] and
    [x0 = 0] the perturbation [delta * x0] is zero and so is the
    denominator, yet the first pass computes [0/0 = nan] on NumPy
    scalars instead of raising, and after [max_iter = 100] passes the
    call returns [(nan, nan, log)] with a log of 100 entries.  The same
    function written [x*x - 2], whose values are Python floats, does
    raise. *)
Lemma modified_secant_numpy_zero_guess_not_raised :
  Floats.veqb (Floats.vmul (Floats.py (1 # 1000000)) (Floats.py 0))
              (Floats.py 0) = true
  /\ Floats.veqb
       (Floats.vsub
          (Floats.np_square_minus_two
             (Floats.vadd (Floats.py 0)
                          (Floats.vmul (Floats.py (1 # 1000000))
                                       (Floats.py 0))))
          (Floats.np_square_minus_two (Floats.py 0)))
       (Floats.py 0) = true
  /\ (exists log,
         Floats.modified_secant Floats.np_square_minus_two (Floats.py 0)
                                (Floats.py (1 # 1000000))
                                (Floats.py (1 # 1000000)) 100
         = Eff [] (Returned (Some Floats.nan_numpy, Some Floats.nan_numpy,
                             Some log))
         /\ List.length log = 100%nat)
  /\ value (Floats.modified_secant Floats.np_square_minus_two
                                   (Floats.py 0)
                                   (Floats.py (1 # 1000000))
                                   (Floats.py (1 # 1000000)) 100)
     <> Raised ZeroDivisionError
  /\ Floats.modified_secant Floats.times_itself_minus_two (Floats.py 0)
                            (Floats.py (1 # 1000000))
                            (Floats.py (1 # 1000000)) 100
     = Eff [] (Raised ZeroDivisionError).
Proof.
  split; [reflexivity|]. split; [reflexivity|]. split; [|split].
  - eexists. split; [vm_compute; reflexivity|reflexivity].
  - vm_compute. discriminate.
  - reflexivity.
Qed.

(** C8, as stated, fails, in two ways.  On Python floats ([secant] on
    [x^2 + 1] from 0 and 1) the zero divisor of the second pass raises:
    the exception is all the caller gets, the entry logged by the first
    pass is gone, and the script ends with the uncaught exception.  On
    NumPy scalars ([newton_raphson] on [np.square(x) - 2] with the
    derivative [2*x], from [x0 = 0], where the derivative is zero)
    nothing is raised and the loop is not left: the call runs its 100
    passes and returns [(nan, nan, log)]. *)
Lemma zero_divisor_neither_kept_nor_always_raised :
  (for_range (secant_body square_plus_one (1 # 1000000)) 1 0%Z
             (secant_init 0 1)
   = Exhausted (SecantFrame 1 (-1) (Some (-1)) [Iteration 1 (-1) 2 2])
   /\ square_plus_one (-1) - square_plus_one 1 == 0
   /\ secant square_plus_one 0 1 (1 # 1000000) 100
      = Eff [] (Raised ZeroDivisionError)
   /\ (forall r, value (secant square_plus_one 0 1 (1 # 1000000) 100)
                 <> Returned r)
   /\ main (CliArgs Secant square_plus_one [0; 1] (1 # 1000000) 100
                    (1 # 1000000) None None)
      = Eff [] (Raised ZeroDivisionError))
  /\ (Floats.veqb (Floats.twice (Floats.py 0)) (Floats.py 0) = true
      /\ exists log,
          Floats.newton_raphson Floats.np_square_minus_two Floats.twice
                                (Floats.py 0) (Floats.py (1 # 1000000))
                                100
          = Eff [] (Returned (Some Floats.nan_numpy,
                              Some Floats.nan_numpy, Some log))
          /\ List.length log = 100%nat).
Proof.
  split.
  - exact zero_divisor_drops_log.
  - split; [reflexivity|].
    eexists. split; [vm_compute; reflexivity|reflexivity].
Qed.

(** With a NumPy operand the division returns. *)
Lemma truediv_numpy (a b : Floats.value) :
  Floats.numpy a = true ->
  Floats.truediv a b
  = Returned (Floats.Val (Floats.div (Floats.num_of a) (Floats.num_of b))
                         true).
Proof. intro H. unfold Floats.truediv. now rewrite H. Qed.

Section NumpyRuns.

Context {S : Type}.
Variable body : Z -> S -> ctl S Floats.run_result.
Variable cur : S -> option Floats.value.
Variable after : S -> outcome Floats.run_result.

(** A body that never raises, returns full triples and binds the
    estimate variable when it goes on. *)
Hypothesis body_runs :
  forall i s,
    match body i s with
    | Continue s' => exists x, cur s' = Some x
    | Return r => exists root err log, r = (Some root, Some err, Some log)
    | Raise _ => False
    end.
Hypothesis after_returns :
  forall s x, cur s = Some x ->
              exists err log, after s = Returned (Some x, Some err, Some log).

Lemma numpy_run_returns (n : nat) (s0 : S) :
  (1 <= n)%nat ->
  exists root err log,
    fall_through after (for_range body n 0%Z s0)
    = Returned (Some root, Some err, Some log).
Proof.
  intro Hn.
  pose proof (for_range_triple body
                (fun k s => k = O \/ exists x, cur s = Some x)
                (fun _ r => exists root err log,
                     r = (Some root, Some err, Some log))
                (fun _ _ => False)) as H.
  assert (Hk : match for_range body n (Z.of_nat 0) s0 with
               | Exhausted s' =>
                   (0 + n = 0)%nat \/ exists x, cur s' = Some x
               | Broke r =>
                   exists root err log,
                     r = (Some root, Some err, Some log)
               | Failed _ => False
               end).
  { apply H.
    - intros k s s' _ Hb. right.
      pose proof (body_runs (Z.of_nat k) s) as Hs. now rewrite Hb in Hs.
    - intros k s r _ Hb.
      pose proof (body_runs (Z.of_nat k) s) as Hs. now rewrite Hb in Hs.
    - intros k s e _ Hb.
      pose proof (body_runs (Z.of_nat k) s) as Hs. now rewrite Hb in Hs.
    - now left. }
  change (Z.of_nat 0) with 0%Z in Hk.
  destruct (for_range body n 0%Z s0) as [s|r|e]; simpl.
  - destruct Hk as [Hk|(x & Hx)]; [lia|].
    destruct (after_returns s x Hx) as (err & log & ->).
    now exists x, err, log.
  - destruct Hk as (root & err & log & ->). now exists root, err, log.
  - destruct Hk.
Qed.

End NumpyRuns.

(** X20. With a handle that returns NumPy scalars on every input (an
    expression built on [np] functions) and [max_iter >= 1], [secant],
    [newton_raphson] and [modified_secant] never raise
    [ZeroDivisionError], whatever their denominators: every division is
    NumPy's, which returns [inf] or [nan] on a zero divisor, and the
    call returns a full triple. *)
Theorem numpy_handles_never_raise :
  (forall f x0 x1 tol max_iter,
      (forall v, Floats.numpy (f v) = true) -> (1 <= max_iter)%Z ->
      exists root err log,
        Floats.secant f x0 x1 tol max_iter
        = Eff [] (Returned (Some root, Some err, Some log)))
  /\ (forall f df x0 tol max_iter,
         (forall v, Floats.numpy (f v) = true) -> (1 <= max_iter)%Z ->
         exists root err log,
           Floats.newton_raphson f df x0 tol max_iter
           = Eff [] (Returned (Some root, Some err, Some log)))
  /\ (forall f x0 delta tol max_iter,
         (forall v, Floats.numpy (f v) = true) -> (1 <= max_iter)%Z ->
         exists root err log,
           Floats.modified_secant f x0 delta tol max_iter
           = Eff [] (Returned (Some root, Some err, Some log))).
Proof.
  split; [|split].
  - intros f x0 x1 tol max_iter Hf Hmax. unfold Floats.secant, of_outcome.
    destruct (numpy_run_returns (Floats.secant_body f tol) Floats.sc_x2
                Floats.secant_return) with
      (n := Z.to_nat max_iter) (s0 := Floats.SecantFrame x0 x1 None [])
      as (root & err & log & ->); [| |lia|now exists root, err, log].
    + intros i s. unfold Floats.secant_body. cbv beta zeta.
      rewrite truediv_numpy
        by (unfold Floats.vmul; cbn [Floats.numpy]; now rewrite Hf).
      unfold Floats.bind_ctl.
      destruct (Floats.vlt _ tol); [now eexists _, _, _|now eexists].
    + intros s x Hx. unfold Floats.secant_return. rewrite Hx.
      now eexists _, _.
  - intros f df x0 tol max_iter Hf Hmax.
    unfold Floats.newton_raphson, of_outcome.
    destruct (numpy_run_returns (Floats.newton_raphson_body f df tol)
                Floats.pt_x1 Floats.point_return) with
      (n := Z.to_nat max_iter) (s0 := Floats.PointFrame x0 None [])
      as (root & err & log & ->); [| |lia|now exists root, err, log].
    + intros i s. unfold Floats.newton_raphson_body. cbv beta zeta.
      rewrite truediv_numpy by apply Hf.
      unfold Floats.bind_ctl.
      destruct (Floats.vlt _ tol); [now eexists _, _, _|now eexists].
    + intros s x Hx. unfold Floats.point_return. rewrite Hx.
      now eexists _, _.
  - intros f x0 delta tol max_iter Hf Hmax.
    unfold Floats.modified_secant, of_outcome.
    destruct (numpy_run_returns (Floats.modified_secant_body f delta tol)
                Floats.pt_x1 Floats.point_return) with
      (n := Z.to_nat max_iter) (s0 := Floats.PointFrame x0 None [])
      as (root & err & log & ->); [| |lia|now exists root, err, log].
    + intros i s. unfold Floats.modified_secant_body. cbv beta zeta.
      rewrite truediv_numpy
        by (unfold Floats.vmul; cbn [Floats.numpy]; now rewrite Hf).
      unfold Floats.bind_ctl.
      destruct (Floats.vlt _ tol); [now eexists _, _, _|now eexists].
    + intros s x Hx. unfold Floats.point_return. rewrite Hx.
      now eexists _, _.
Qed.

Lemma numpy_handles_never_raise_witness :
  exists root err log,
    Floats.secant Floats.np_square (Floats.py (-1)) (Floats.py 1)
                  (Floats.py (1 # 1000000)) 100
    = Eff [] (Returned (Some root, Some err, Some log)).
Proof.
  apply (proj1 numpy_handles_never_raise Floats.np_square
               (Floats.py (-1)) (Floats.py 1) (Floats.py (1 # 1000000))
               100%Z).
  - intro v. reflexivity.
  - lia.
Defined.
